(** * EpiTator: count annotation and the ITIS species importer

    A shallow embedding of [epitator/count_annotator.py] and
    [epitator/importers/import_species.py].

    Conventions.
    - Character offsets are [nat]; document text is a [string]; a Python
      slice [text[a:b]] is [substring a (b - a) text].
    - The value returned by [utils.parse_spelled_number] is a [pyvalue]:
      [None], an [int], or a [float].  A finite float is represented by the
      rational it denotes, which is exact for the three operations the code
      applies to it ([int()], [!=], [>]).
    - Python code that may raise or log runs in the monad [Py]: a log of
      the records passed to the logger is threaded through, and a
      computation ends in a value or in a raised exception.
    - Dictionaries keyed by strings are [gmap string _]. *)

From Stdlib Require Import String Ascii List ZArith QArith Lia Bool DecimalString.
From Stdlib Require Import DecimalPos DecimalZ.
From stdpp Require Import base option gmap strings.
Import ListNotations.

#[local] Open Scope string_scope.
#[local] Open Scope nat_scope.
#[local] Open Scope list_scope.

(** ** Python values *)

Inductive pyfloat :=
| Finite (q : Q)
| NaN
| Inf (negative : bool).

Inductive pyvalue :=
| PyNone
| PyInt (z : Z)
| PyFloat (f : pyfloat).

Inductive exn :=
| IndexError
| KeyError
| TypeError
| ValueError
| OverflowError.

Inductive result (A : Type) :=
| Ok (a : A)
| Raise (e : exn).
Arguments Ok {A} a.
Arguments Raise {A} e.

(** Truncation toward zero of a rational, as [int()] does on a float. *)
Definition Qtrunc (q : Q) : Z := Z.quot (Qnum q) (Zpos (Qden q)).

(** [int(value)] *)
Definition py_int (v : pyvalue) : result Z :=
  match v with
  | PyNone => Raise TypeError
  | PyInt z => Ok z
  | PyFloat (Finite q) => Ok (Qtrunc q)
  | PyFloat NaN => Raise ValueError
  | PyFloat (Inf _) => Raise OverflowError
  end.

(** [n != value] for an [int] [n] and a number [value] *)
Definition py_int_ne (n : Z) (v : pyvalue) : bool :=
  match v with
  | PyNone => true
  | PyInt z => negb (Z.eqb n z)
  | PyFloat (Finite q) => negb (Qeq_bool (inject_Z n) q)
  | PyFloat _ => true
  end.

(** [value > n] for a number [value] and an [int] [n] *)
Definition py_gt (v : pyvalue) (n : Z) : bool :=
  match v with
  | PyNone => false
  | PyInt z => Z.ltb n z
  | PyFloat (Finite q) => negb (Qle_bool q (inject_Z n))
  | PyFloat NaN => false
  | PyFloat (Inf negative) => negb negative
  end.

(** The number is (the value of) an integer; [Some z] gives it. *)
Definition integer_value (v : pyvalue) : option Z :=
  match v with
  | PyInt z => Some z
  | PyFloat (Finite q) =>
      if Qeq_bool (inject_Z (Qtrunc q)) q then Some (Qtrunc q) else None
  | _ => None
  end.

(** ** The monad of logging, raising code *)

Inductive level := INFO | ERROR.

Definition log_record : Type := level * string.

Definition Py (A : Type) : Type := list log_record -> result A * list log_record.

#[global] Instance Py_ret : MRet Py := fun A a l => (Ok a, l).

#[global] Instance Py_bind : MBind Py := fun A B k m l =>
  match m l with
  | (Ok a, l') => k a l'
  | (Raise e, l') => (Raise e, l')
  end.

Definition raise {A} (e : exn) : Py A := fun l => (Raise e, l).

Definition lift {A} (r : result A) : Py A := fun l => (r, l).

(** [try: body except (TypeError, ValueError): handler] *)
Definition try_except_type_value {A} (body : Py A) (handler : Py A) : Py A :=
  fun l => match body l with
           | (Raise TypeError, l') | (Raise ValueError, l') => handler l'
           | r => r
           end.

(** [logger.info(msg)]: the record handed to the logger.  Whether a
    handler writes it out is a matter of the logging configuration (the
    module asks for level ERROR on the root logger), which is not
    modelled. *)
Definition logger_info (msg : string) : Py unit :=
  fun l => (Ok tt, (l ++ [(INFO, msg)])%list).

Definition run {A} (m : Py A) : result A * list log_record := m [].

Fixpoint mapM_py {A B} (f : A -> Py B) (xs : list A) : Py (list B) :=
  match xs with
  | [] => mret []
  | x :: xs' => y ← f x; ys ← mapM_py f xs'; mret (y :: ys)
  end.

(** ** [is_valid_count] *)

Section Validation.

(** [utils.parse_spelled_number] is not part of the sources at hand; it is
    a parameter of everything that calls it. *)
Variable parse_spelled_number : string -> pyvalue.

Definition begins_with_zero (s : string) : bool :=
  match s with
  | String c _ => Ascii.eqb c "0"
  | EmptyString => false
  end.

(** [count_string[0]] *)
Definition first_char (s : string) : result ascii :=
  match s with
  | EmptyString => Raise IndexError
  | String c _ => Ok c
  end.

Definition is_valid_count (count_string : string) : Py bool :=
  let value := parse_spelled_number count_string in
  c ← lift (first_char count_string);
  if Ascii.eqb c "0" then mret false else
  returned ← try_except_type_value
    (n ← lift (py_int value);
     if py_int_ne n value then mret (Some false) else mret None)
    (logger_info ("Cannot parse count string: " ++ count_string)%string;;
     mret (Some false));
  match returned with
  | Some b => mret b
  | None => if py_gt value 1000000000 then mret false else mret true
  end.

End Validation.

(** ** Regular expressions

    The patterns the annotator hands to [re] use literals, [\s], [^], [$],
    [|], groups and [?].  A pattern is kept as its parse: a list of
    top-level alternatives, each a sequence of atoms.  Concatenating
    pattern texts, as [r'^' + regex_term + r'$'] does, joins the last
    alternative of the left text with the first of the right one. *)

#[warnings="-register-all"]
Inductive atom :=
| Chr (c : ascii)
| Whitespace
| Bol
| Eol
| Grp (alternatives : list (list atom))
| Opt (a : atom).

Definition pattern : Type := list (list atom).

Fixpoint lit (s : string) : list atom :=
  match s with
  | EmptyString => []
  | String c s' => Chr c :: lit s'
  end.

Fixpoint pattern_concat (p q : pattern) : pattern :=
  match p with
  | [] => q
  | [last] => match q with
              | [] => [last]
              | first :: q' => (last ++ first)%list :: q'
              end
  | alt :: p' => alt :: pattern_concat p' q
  end.

Definition lower (c : ascii) : ascii :=
  let n := nat_of_ascii c in
  if (65 <=? n) && (n <=? 90) then ascii_of_nat (n + 32) else c.

Definition same_char (ignore_case : bool) (c d : ascii) : bool :=
  if ignore_case then Ascii.eqb (lower c) (lower d) else Ascii.eqb c d.

(** [\s]: space, tab, newline, carriage return, form feed, vertical tab *)
Definition is_space (c : ascii) : bool :=
  let n := nat_of_ascii c in
  (n =? 32) || ((9 <=? n) && (n <=? 13)).

(** [$] holds at the end of the text and before a final newline. *)
Definition at_eol (s : string) : bool :=
  match s with
  | EmptyString => true
  | String c EmptyString => Ascii.eqb c "010"
  | _ => false
  end.

(** Backtracking matcher: [m_atom ic a k pos s] matches [a] at offset
    [pos], where [s] is the rest of the text, and continues with [k];
    the answer is the end offset of the first match found. *)
Fixpoint m_atom (ic : bool) (a : atom) (k : nat -> string -> option nat)
    (pos : nat) (s : string) {struct a} : option nat :=
  match a with
  | Chr c =>
      match s with
      | String d s' => if same_char ic c d then k (S pos) s' else None
      | EmptyString => None
      end
  | Whitespace =>
      match s with
      | String d s' => if is_space d then k (S pos) s' else None
      | EmptyString => None
      end
  | Bol => if pos =? 0 then k pos s else None
  | Eol => if at_eol s then k pos s else None
  | Grp alternatives =>
      (fix m_alts (alts : list (list atom)) : option nat :=
         match alts with
         | [] => None
         | alt :: rest =>
             match
               (fix m_seq (l : list atom) : nat -> string -> option nat :=
                  match l with
                  | [] => k
                  | x :: l' => m_atom ic x (m_seq l')
                  end) alt pos s
             with
             | Some e => Some e
             | None => m_alts rest
             end
         end) alternatives
  | Opt a' =>
      match m_atom ic a' k pos s with
      | Some e => Some e
      | None => k pos s
      end
  end.

(** The end offset of a match of [p] at offset [pos] of a text whose rest
    is [s]. *)
Definition match_at (ic : bool) (p : pattern) (pos : nat) (s : string) : option nat :=
  m_atom ic (Grp p) (fun e _ => Some e) pos s.

(** [regex.match(text)] as a truth value *)
Definition re_match (ic : bool) (p : pattern) (text : string) : bool :=
  match match_at ic p 0 text with Some _ => true | None => false end.

(** [[m.span() for m in re.finditer(p, text)]], for a pattern that
    matches no empty string: [skip] counts the characters of the last
    match still to be passed over. *)
Fixpoint finditer_from (ic : bool) (p : pattern) (pos skip : nat) (s : string)
  : list (nat * nat) :=
  match s with
  | EmptyString => []
  | String _ s' =>
      match skip with
      | S skip' => finditer_from ic p (S pos) skip' s'
      | O =>
          match match_at ic p pos s with
          | Some e => (pos, e) :: finditer_from ic p (S pos) (e - pos - 1) s'
          | None => finditer_from ic p (S pos) 0 s'
          end
      end
  end.

Definition finditer (ic : bool) (p : pattern) (text : string) : list (nat * nat) :=
  finditer_from ic p 0 0 text.

(** [r'\s(?:to|and|or)\s'] *)
Definition joiner_pattern : pattern :=
  [[Whitespace; Grp [lit "to"; lit "and"; lit "or"]; Whitespace]].

(** [str.split(sep)] on a one-character separator *)
Fixpoint split_on (sep : ascii) (s : string) : list string :=
  match s with
  | EmptyString => [EmptyString]
  | String c s' =>
      if Ascii.eqb c sep then EmptyString :: split_on sep s'
      else match split_on sep s' with
           | [] => [String c EmptyString]
           | w :: ws => String c w :: ws
           end
  end.


(** ** Spans

    [annospan.py], [annotier.py] and [result_aggregators.py] are not among
    the sources at hand.  The span algebra below follows the written
    specification of these modules; the way the annotator calls it (the
    constructors [AnnoSpan(start, end, doc)] and [SpanGroup([span], label)],
    the attributes [start], [end], [text], [label], the method
    [groupdict()]) is taken from [count_annotator.py]. *)

(** Modelled from the spec: the classes [AnnoSpan] and [SpanGroup] are
    missing.  A Span is a half-open interval of character offsets with a
    label; a grouped Span is formed from constituent Spans and bears a
    role label.  The document reference is left implicit: all spans of a
    run belong to the one document being annotated. *)
#[warnings="-register-all"]
Inductive AnnoSpan :=
| Span (start end_ : nat) (label : option string)
| SpanGroup (base_spans : list AnnoSpan) (label : option string).

(** Modelled from the spec: the class [AnnoTier] is missing; a Tier is "an
    ordered sequence of Spans", and [+] "concatenates two Tiers' span
    sequences without deduplication".  [AnnoTier(spans)] is the list
    [spans] itself and [+] is [++]. *)
Definition AnnoTier : Type := list AnnoSpan.

(** Modelled from the spec: the extent of a grouped Span is missing from
    the sources; "its own interval is the union of constituents' extents".
    A group without constituents is not built anywhere; it is given the
    empty extent at offset 0. *)
Fixpoint start (s : AnnoSpan) : nat :=
  match s with
  | Span a _ _ => a
  | SpanGroup base_spans _ =>
      match map start base_spans with
      | [] => 0
      | a :: starts => fold_right Nat.min a starts
      end
  end.

(** Modelled from the spec: as for [start], the end of a grouped Span is
    the greatest end of its constituents. *)
Fixpoint end_ (s : AnnoSpan) : nat :=
  match s with
  | Span _ b _ => b
  | SpanGroup base_spans _ =>
      match map end_ base_spans with
      | [] => 0
      | b :: ends => fold_right Nat.max b ends
      end
  end.

(** Modelled from the spec: the attribute [label] of either class. *)
Definition label (s : AnnoSpan) : option string :=
  match s with
  | Span _ _ l => l
  | SpanGroup _ l => l
  end.

(** Modelled from the spec: the constructor of [AnnoSpan] is missing;
    "constructor validation ([start>end] is rejected)", "fail immediately
    at construction, never silently clamp". *)
Definition AnnoSpan_init (a b : nat) (l : option string) : result AnnoSpan :=
  if b <? a then Raise ValueError else Ok (Span a b l).

(** [text[a:b]] for offsets that are not negative. *)
Definition slice (a b : nat) (s : string) : string := substring a (b - a) s.

(** Modelled from the spec: [span.text] is [doc.text[span.start:span.end]]. *)
Definition text_of (doc_text : string) (s : AnnoSpan) : string :=
  slice (start s) (end_ s) doc_text.

(** Modelled from the spec: [overlaps] is missing; Spans are half-open
    intervals. *)
Definition overlaps (a b : AnnoSpan) : bool :=
  (start a <? end_ b) && (start b <? end_ a).

(** Modelled from the spec: [contains] is missing; the extent of [b] "lies
    within" that of [a]. *)
Definition contains (a b : AnnoSpan) : bool :=
  (start a <=? start b) && (end_ b <=? end_ a).

(** Modelled from the spec: [distance] is missing; "zero if overlapping,
    else gap in offsets". *)
Definition distance (a b : AnnoSpan) : nat :=
  if overlaps a b then 0
  else if end_ a <=? start b then start b - end_ a
  else start a - end_ b.

(** Two role dictionaries merged: the lists under a common role are
    appended. *)
Definition merge_roles (d1 d2 : gmap string (list AnnoSpan)) : gmap string (list AnnoSpan) :=
  union_with (fun l1 l2 => Some (l1 ++ l2)%list) d1 d2.

(** [d.get(k, [])] *)
Definition roles_at (d : gmap string (list AnnoSpan)) (k : string) : list AnnoSpan :=
  default [] (d !! k).

(** Modelled from the spec: [groupdict] is missing; a grouped Span's
    "metadata records each constituent under a role key, and repeated
    matches of the same role accumulate as an ordered list".  The roles of
    the constituents come first, in order; a labelled group is then
    recorded under its own label.  A plain Span has no roles. *)
Fixpoint groupdict (s : AnnoSpan) : gmap string (list AnnoSpan) :=
  match s with
  | Span _ _ _ => ∅
  | SpanGroup base_spans l =>
      let out := fold_right merge_roles ∅ (map groupdict base_spans) in
      match l with
      | Some name => <[name := (roles_at out name ++ [s])%list]> out
      | None => out
      end
  end.

(** ** Tier operations and combinators *)

(** Modelled from the spec: [ra.label] is missing; it "tags every input
    Span with role [name] in its metadata (non-destructive wrap)". *)
Definition ra_label (name : option string) (spans : list AnnoSpan) : list AnnoSpan :=
  map (fun s => SpanGroup [s] name) spans.

(** Modelled from the spec: [without_overlaps] is missing; it "returns
    only Spans from self that do not overlap any Span in [other_tier]". *)
Definition without_overlaps (self other : AnnoTier) : AnnoTier :=
  List.filter (fun s => negb (existsb (overlaps s) other)) self.

(** Modelled from the spec: [group_spans_by_containing_span] is missing;
    "for every Span in the tier, collect all [candidate_spans] whose extent
    lies within it (or merely overlaps it, if partial containment is
    allowed)"; containers with an empty group are yielded too. *)
Definition group_spans_by_containing_span (self : AnnoTier)
    (candidate_spans : list AnnoSpan) (allow_partial_containment : bool)
  : list (AnnoSpan * list AnnoSpan) :=
  map (fun container =>
         (container,
          List.filter (fun c => if allow_partial_containment
                                then overlaps container c
                                else contains container c)
                      candidate_spans))
      self.

(** Modelled from the spec: [with_nearby_spans_from] is missing; "for each
    Span in self, find one or more Spans in [other_tier] within [max_dist]
    character distance, and merge them into new composite Spans"; several
    qualifying Spans go into the same composite "rather than producing a
    cross product". *)
Definition with_nearby_spans_from (self other : AnnoTier) (max_dist : nat) : AnnoTier :=
  flat_map (fun s =>
              match List.filter (fun o => distance s o <=? max_dist) other with
              | [] => []
              | nearby => [SpanGroup (s :: nearby) None]
              end)
           self.

(** Modelled from the spec: the condition of [ra.follows] on two
    neighbours of a chain: "s1 ends at or before s2 starts (optionally
    within a maximum gap)". *)
Definition may_follow (max_gap : nat) (s1 s2 : AnnoSpan) : bool :=
  (end_ s1 <=? start s2) && (start s2 - end_ s1 <=? max_gap).

(** Modelled from the spec: the chains of [ra.follows], one span from
    each tier in turn. *)
Fixpoint chains (max_gap : nat) (tiers : list (list AnnoSpan)) : list (list AnnoSpan) :=
  match tiers with
  | [] => []
  | [t] => map (fun s => [s]) t
  | t :: rest =>
      flat_map (fun s1 =>
                  flat_map (fun chain =>
                              match chain with
                              | s2 :: _ => if may_follow max_gap s1 s2
                                           then [s1 :: chain] else []
                              | [] => []
                              end)
                           (chains max_gap rest))
               t
  end.

(** Modelled from the spec: [ra.follows] is missing; it yields "a
    composite Span for every chain (s1 in T1, s2 in T2, ...)", the
    metadata of which records each member. *)
Definition follows (max_gap : nat) (tiers : list (list AnnoSpan)) : list AnnoSpan :=
  map (fun chain => SpanGroup chain None) (chains max_gap tiers).

(** ** The overlap resolver *)

(** [AnnoTier.optimal_span_set] is not among the sources at hand.  Following
    the spec, the spans are partitioned into overlap-connected components;
    within each component the mutually non-overlapping selections are
    enumerated and the one of greatest total weight under the preference
    is kept; the selections of all components are returned in the
    original relative order.  What weight a preference gives a span is
    the parameter [weight]. *)
Section OptimalSpanSet.

Variable weight : AnnoSpan -> nat.

(** A span together with its position in the tier. *)
Definition item : Type := nat * AnnoSpan.

(** Modelled from the spec: [x] overlaps a member of the component. *)
Definition touches (x : item) (component : list item) : bool :=
  existsb (fun y => overlaps (snd x) (snd y)) component.

(** Modelled from the spec: step 1, "two spans are in the same component
    if they overlap, transitively"; the components [x] touches are united
    with it. *)
Definition add_to_components (components : list (list item)) (x : item)
  : list (list item) :=
  let (touching, apart) := partition (touches x) components in
  (apart ++ [concat touching ++ [x]])%list.

(** Modelled from the spec: the overlap-connected components. *)
Definition components (items : list item) : list (list item) :=
  fold_left add_to_components items [].

(** Modelled from the spec: a "mutually non-overlapping" selection. *)
Fixpoint non_overlapping (l : list item) : bool :=
  match l with
  | [] => true
  | x :: l' =>
      forallb (fun y => negb (overlaps (snd x) (snd y))) l' && non_overlapping l'
  end.

Fixpoint sublists {A} (l : list A) : list (list A) :=
  match l with
  | [] => [[]]
  | x :: l' => (map (cons x) (sublists l') ++ sublists l')%list
  end.

(** Modelled from the spec: the score of a selection is the sum of the
    weights of its spans. *)
Definition score (l : list item) : nat :=
  list_sum (map (fun x => weight (snd x)) l).

(** Modelled from the spec: the tie-break, "earlier-starting, then
    shorter span wins". *)
Definition span_precedes (a b : AnnoSpan) : bool :=
  (start a <? start b) || ((start a =? start b) && (end_ a <? end_ b)).

(** Modelled from the spec: a selection is preferred for its greater
    score, and at equal score for its first span by the tie-break. *)
Definition preferred (candidate best : list item) : bool :=
  (score best <? score candidate)
  || ((score candidate =? score best)
      && match candidate, best with
         | x :: _, y :: _ => span_precedes (snd x) (snd y)
         | _, _ => false
         end).

(** Modelled from the spec: step 2, the preferred one among the
    non-overlapping selections of a component. *)
Definition best_of (component : list item) : list item :=
  fold_left (fun best candidate =>
               if preferred candidate best then candidate else best)
            (List.filter non_overlapping (sublists component)) [].

(** Modelled from the spec: step 3, the selections of all components "in
    original relative order". *)
Definition optimal_items (items : list item) : list item :=
  let chosen := flat_map best_of (components items) in
  List.filter (fun x => existsb (Nat.eqb (fst x)) (map fst chosen)) items.

(** Modelled from the spec: [optimal_span_set] is missing; see the three
    steps above. *)
Definition optimal_span_set (tier : AnnoTier) : AnnoTier :=
  map snd (optimal_items (combine (seq 0 (length tier)) tier)).

End OptimalSpanSet.

(** ** The annotator *)

(** What the annotator takes from outside [count_annotator.py]:
    the number parser of [utils]; the defaults of the span algebra (the
    gap [follows] allows, the distance [with_nearby_spans_from] allows, the
    weights behind the default and the ['num_spans'] preference); and the
    sentence similarity of the linguistic front end, with the reference
    sentences [case_count_senses] and [non_case_count_senses] it is
    applied to. *)
Record Externals := {
  parse_spelled_number : string -> pyvalue;
  follows_max_gap : nat;
  nearby_max_dist : nat;
  prefer_default : AnnoSpan -> nat;
  prefer_num_spans : AnnoSpan -> nat;
  Sense : Type;
  case_count_senses : list Sense;
  non_case_count_senses : list Sense;
  similarity : AnnoSpan -> Sense -> Q
}.

(** A token span of the ['spacy.tokens'] tier with what the annotator
    reads from its token: lemma, tag, and the lower-cased children. *)
Record Token := {
  token_start : nat;
  token_end : nat;
  lemma_ : string;
  tag_ : string;
  children : list string
}.

Definition token_span (t : Token) : AnnoSpan :=
  Span (token_start t) (token_end t) None.

(** The document, once the spaCy and date annotators have added their
    tiers (lines 79 to 82). *)
Record AnnoDoc := {
  text : string;
  spacy_tokens : list Token;
  spacy_sentences : AnnoTier;
  spacy_nes : list (nat * nat * string);
  dates : AnnoTier
}.

(** A span of the ['spacy.nes'] tier: a plain span labelled with the
    entity type. *)
Definition ne_span (entity : nat * nat * string) : AnnoSpan :=
  let '(a, b, l) := entity in Span a b (Some l).

Inductive pyobj :=
| ONum (v : pyvalue)
| OStr (s : string)
| OList (l : list string).

Record CountSpan := {
  cs_start : nat;
  cs_end : nat;
  cs_label : string;
  cs_metadata : gmap string pyobj
}.

(** [x in l] for a list of strings *)
Definition str_in (x : string) (l : list string) : bool :=
  existsb (String.eqb x) l.

(** [l[0]] *)
Definition item0 {A} (l : list A) : result A :=
  match l with
  | [] => Raise IndexError
  | x :: _ => Ok x
  end.

(** [d[k]] *)
Definition getitem {V} (d : gmap string V) (k : string) : result V :=
  match d !! k with
  | Some v => Ok v
  | None => Raise KeyError
  end.

(** [max(xs)] *)
Definition py_max (xs : list Q) : result Q :=
  match xs with
  | [] => Raise ValueError
  | x :: xs' => Ok (fold_left (fun m y => if Qle_bool y m then m else y) xs' x)
  end.

(** [sorted(l)] on strings: insertion by code-point order *)
Fixpoint insert_sorted (x : string) (l : list string) : list string :=
  match l with
  | [] => [x]
  | y :: l' => if String.leb x y then x :: l else y :: insert_sorted x l'
  end.

Definition sorted (l : list string) : list string :=
  fold_right insert_sorted [] l.

Definition CountSpan_init (doc : AnnoDoc) (span : AnnoSpan)
    (metadata : gmap string pyobj) : CountSpan :=
  {| cs_start := start span;
     cs_end := end_ span;
     cs_label := text_of (text doc) span;
     cs_metadata := metadata |}.

(** Modelled from the spec: [AnnoSpan.to_dict], which [CountSpan.to_dict]
    calls through [super], is missing; it "serializes offsets, label,
    text". *)
Definition AnnoSpan_to_dict (doc : AnnoDoc) (c : CountSpan) : gmap string pyobj :=
  {[ "start" := ONum (PyInt (Z.of_nat (cs_start c)));
     "end" := ONum (PyInt (Z.of_nat (cs_end c)));
     "label" := OStr (cs_label c);
     "text" := OStr (slice (cs_start c) (cs_end c) (text doc)) ]}.

(** [result.update(self.metadata)]: the metadata entries win. *)
Definition to_dict (doc : AnnoDoc) (c : CountSpan) : gmap string pyobj :=
  cs_metadata c ∪ AnnoSpan_to_dict doc c.

(** [re.compile(r'^' + regex_term + r'$', re.I)] *)
Definition anchored (regex_term : pattern) : pattern :=
  pattern_concat [[Bol]] (pattern_concat regex_term [[Eol]]).

Definition search_spans_for_regex (doc : AnnoDoc) (regex_term : pattern)
    (spans : list AnnoSpan) : list AnnoSpan :=
  List.filter (fun span => re_match true (anchored regex_term) (text_of (text doc) span))
              spans.

Definition modifier_lemma_groups : list string :=
  [ "average|mean";
    "annual|annually";
    "monthly";
    "weekly";
    "cumulative|total|already";
    "incremental|new|additional|recent";
    "max|less|below|under|most|maximum|up";
    "min|greater|above|over|least|minimum|down|exceeds";
    "approximate|about|near|around" ].

Definition attributes : list string :=
  [ "annual"; "approximate"; "average"; "case"; "confirmed"; "cumulative";
    "death"; "hospitalization"; "incremental"; "max"; "min"; "monthly";
    "suspected"; "weekly" ].

Section Annotate.

Variable E : Externals.
Variable doc : AnnoDoc.

Definition span_text (s : AnnoSpan) : string := text_of (text doc) s.

(** Lines 87 to 101, the body of the loop over the named entities. *)
Definition ne_counts (ne_span : AnnoSpan) : Py (list AnnoSpan) :=
  if match label ne_span with
     | Some l => str_in l ["QUANTITY"; "CARDINAL"]
     | None => false
     end
  then
    valid ← is_valid_count (parse_spelled_number E) (span_text ne_span);
    if valid : bool then mret [SpanGroup [ne_span] (Some "count")]
    else
      match finditer false joiner_pattern (span_text ne_span) with
      | [(j0, j1)] =>
          range_start ← lift (AnnoSpan_init (start ne_span) (start ne_span + j0) None);
          range_end ← lift (AnnoSpan_init (start ne_span + j1) (end_ ne_span) None);
          valid_start ← is_valid_count (parse_spelled_number E) (span_text range_start);
          valid_end ← is_valid_count (parse_spelled_number E) (span_text range_end);
          mret ((if valid_start : bool then [SpanGroup [range_start] (Some "count")] else [])
                ++ (if valid_end : bool then [SpanGroup [range_end] (Some "count")] else []))%list
      | _ => mret []
      end
  else mret [].

Definition count_candidates : Py (list AnnoSpan) :=
  groups ← mapM_py ne_counts (map ne_span (spacy_nes doc));
  mret (concat groups).

Definition search_regex (regex_term : pattern) (match_name : option string)
  : list AnnoSpan :=
  ra_label match_name
           (search_spans_for_regex doc regex_term (map token_span (spacy_tokens doc))).

Definition search_lemmas (lemmas : list string) (match_name : option string)
  : AnnoTier :=
  ra_label match_name
           (map token_span
                (List.filter (fun t => str_in (lemma_ t) lemmas) (spacy_tokens doc))).

Definition ra_follows : list (list AnnoSpan) -> list AnnoSpan :=
  follows (follows_max_gap E).

(** Lines 117 to 130 *)
Definition ranges_of (counts : list AnnoSpan) : list AnnoSpan :=
  ra_follows [counts;
              ra_label (Some "range")
                       (ra_follows [search_regex [lit "to"; lit "and"; lit "or"] None;
                                    counts])].

Definition counts_tier_of (counts : list AnnoSpan) : AnnoTier :=
  let counts_tier := optimal_span_set (prefer_default E) (ranges_of counts ++ counts) in
  let counts_tier :=
    without_overlaps counts_tier
      (ra_follows [search_regex [lit "age"] None; search_regex [lit "of"] None; counts]) in
  let counts_tier :=
    without_overlaps counts_tier
      (ra_follows [counts;
                   search_regex [lit "kilometers"; lit "km"; lit "miles"; lit "mi"] None]) in
  without_overlaps counts_tier (dates doc).

(** Lines 142 to 146 *)
Definition count_descriptions_of (counts_tier : AnnoTier) : AnnoTier :=
  fold_left (fun count_descriptions group =>
               let lemmas := split_on "|" group in
               let results := search_lemmas lemmas (head lemmas) in
               (count_descriptions
                ++ with_nearby_spans_from count_descriptions results (nearby_max_dist E))%list)
            modifier_lemma_groups counts_tier.

(** Lines 147 to 179 *)
Definition person_descriptions : AnnoTier :=
  search_lemmas ["adult"; "senior"; "patient"; "life"; "child"; "person"] (Some "case").

Definition case_descriptions : AnnoTier :=
  let case_descriptions :=
    (ra_label (Some "death")
       (search_lemmas ["death"; "die"; "kill"; "claim"; "fatality"; "deceased"] None)
     ++ ra_label (Some "hospitalization")
          (search_lemmas ["hospital"; "hospitalize"] None)
     ++ ra_label (Some "case")
          (search_lemmas ["case"; "infect"; "infection"; "stricken"] None))%list in
  let case_statuses :=
    (search_lemmas ["suspect"] (Some "suspected")
     ++ search_lemmas ["confirm"] (Some "confirmed"))%list in
  let case_descriptions :=
    optimal_span_set (prefer_default E)
      (ra_follows [case_statuses; case_descriptions] ++ case_descriptions) in
  (case_descriptions
   ++ (person_descriptions
       ++ with_nearby_spans_from person_descriptions case_descriptions (nearby_max_dist E)))%list.

(** Lines 184 to 194 *)
Definition singular_case_tokens : list AnnoSpan :=
  map token_span
      (List.filter
         (fun token =>
            str_in (lemma_ token) ["case"; "fatality"; "death"; "hospitalization"]
            && String.eqb (tag_ token) "NN"
            && existsb (fun c => str_in c ["a"; "an"; "the"]) (children token))
         (spacy_tokens doc)).

(** Lines 199 to 209 *)
Definition filter_by_sense (sentence_group : AnnoSpan * list AnnoSpan)
  : Py (list AnnoSpan) :=
  let (sentence, group) := sentence_group in
  if length group =? 0 then mret [] else
  case_count_sence_similary ←
    lift (py_max (map (similarity E sentence) (case_count_senses E)));
  non_case_count_sence_similary ←
    lift (py_max (map (similarity E sentence) (non_case_count_senses E)));
  if Qle_bool case_count_sence_similary non_case_count_sence_similary
  then mret [] else mret group.

Definition filtered_singular_case_spans : Py (list AnnoSpan) :=
  groups ← mapM_py filter_by_sense
             (group_spans_by_containing_span (spacy_sentences doc)
                                             singular_case_tokens false);
  mret (concat groups).

(** Lines 210 to 216 *)
Definition singular_case_descriptions_of (singular_case_spans : list AnnoSpan)
  : list AnnoSpan :=
  flat_map (fun g : AnnoSpan * list AnnoSpan =>
              if 0 <? length (snd g) then [fst g] else [])
           (group_spans_by_containing_span case_descriptions singular_case_spans true).

(** Lines 218 to 232 *)
Definition all_potential_counts_of (counts_tier : AnnoTier)
    (singular_case_descriptions : list AnnoSpan) : list AnnoSpan :=
  let count_descriptions := count_descriptions_of counts_tier in
  let case_descriptions_with_counts :=
    with_nearby_spans_from case_descriptions count_descriptions 50 in
  (case_descriptions_with_counts
   ++ ra_follows [search_regex
                    [(lit "deaths" ++ [Opt (Grp [[Opt Whitespace; Chr ":"]])])%list]
                    (Some "death");
                  counts_tier]
   ++ count_descriptions
   ++ singular_case_descriptions)%list.

Definition single_sentence_counts_of (all_potential_counts : list AnnoSpan)
  : list AnnoSpan :=
  flat_map snd
           (group_spans_by_containing_span (spacy_sentences doc)
                                           all_potential_counts false).

Definition annotated_counts : Py AnnoTier :=
  counts ← count_candidates;
  singular_case_spans ← filtered_singular_case_spans;
  mret (optimal_span_set (prefer_num_spans E)
          (single_sentence_counts_of
             (all_potential_counts_of (counts_tier_of counts)
                (singular_case_descriptions_of singular_case_spans)))).

(** Lines 250 to 283, the body of the loop over the selected matches. *)
Definition matching_attributes_of (match_dict : gmap string (list AnnoSpan))
  : gset string :=
  let matching_attributes : gset string :=
    list_to_set (List.filter (fun attr => bool_decide (is_Some (match_dict !! attr)))
                             attributes) in
  if bool_decide ("death" ∈ matching_attributes)
     || bool_decide ("hospitalization" ∈ matching_attributes)
  then matching_attributes ∪ {["case"]}
  else matching_attributes.

Definition count_metadata (span_text attrs_sorted : _) (count : pyvalue)
  : gmap string pyobj :=
  {[ "text" := OStr span_text;
     "attributes" := OList attrs_sorted;
     "count" := ONum count ]}.

Definition count_spans_for (match_ : AnnoSpan) : Py (list CountSpan) :=
  let match_dict := groupdict match_ in
  let matching_attributes := matching_attributes_of match_dict in
  count ← match match_dict !! "count" with
          | Some found =>
              first ← lift (item0 found);
              mret (parse_spelled_number E (span_text first))
          | None => mret (PyInt 1)
          end;
  match match_dict !! "range" with
  | Some found =>
      range_match ← lift (item0 found);
      upper_counts ← lift (getitem (groupdict range_match) "count");
      upper ← lift (item0 upper_counts);
      let upper_count_text := span_text upper in
      let upper_count := parse_spelled_number E upper_count_text in
      mret [ CountSpan_init doc match_
               (count_metadata (span_text match_)
                  (sorted (elements matching_attributes ++ ["min"]))
                  count);
             CountSpan_init doc range_match
               (count_metadata upper_count_text
                  (sorted (elements matching_attributes ++ ["max"]))
                  upper_count) ]
  | None =>
      mret [ CountSpan_init doc match_
               (count_metadata (span_text match_)
                  (sorted (elements matching_attributes))
                  count) ]
  end.

Definition count_spans_of (annotated : AnnoTier) : Py (list CountSpan) :=
  groups ← mapM_py count_spans_for annotated;
  mret (concat groups).

(** [CountAnnotator.annotate], the value under the key ['counts']. *)
Definition annotate : Py (list CountSpan) :=
  annotated ← annotated_counts;
  count_spans_of annotated.

End Annotate.

(** ** Instances used in the examples *)

(** A parser standing in for [utils.parse_spelled_number], which is not
    among the sources at hand, in the examples: it reads unsigned decimal
    numerals and nothing else.  The statements about the annotator hold
    for every parser; where an example turns on what the parser makes of
    a phrase, it is given for either outcome ([with_parser] below). *)
Fixpoint read_decimal (acc : Z) (s : string) : option Z :=
  match s with
  | EmptyString => Some acc
  | String c s' =>
      let n := nat_of_ascii c in
      if (48 <=? n) && (n <=? 57)
      then read_decimal (10 * acc + Z.of_nat (n - 48)) s'
      else None
  end.

Definition parse_decimal (s : string) : pyvalue :=
  match s with
  | EmptyString => PyNone
  | _ => match read_decimal 0 s with
         | Some z => PyInt z
         | None => PyNone
         end
  end.

(** A preference by the length of the text a span covers, and one by the
    number of plain spans a match is made of. *)
Definition text_length (s : AnnoSpan) : nat := end_ s - start s.

Fixpoint num_spans (s : AnnoSpan) : nat :=
  match s with
  | Span _ _ _ => 1
  | SpanGroup base_spans _ => list_sum (map num_spans base_spans)
  end.

Definition example_externals : Externals :=
  {| parse_spelled_number := parse_decimal;
     follows_max_gap := 30;
     nearby_max_dist := 100;
     prefer_default := text_length;
     prefer_num_spans := num_spans;
     Sense := nat;
     case_count_senses := [0; 1; 2; 3; 4];
     non_case_count_senses := [5; 6; 7];
     similarity := fun _ sense => if sense <? 5 then 1%Q else 0%Q |}.



(** The documents of the examples. *)
Definition tok (a b : nat) (lemma tag : string) (kids : list string) : Token :=
  {| token_start := a; token_end := b; lemma_ := lemma; tag_ := tag; children := kids |}.

(** "between 5 and 10 cases", the entity tier marking "5 and 10". *)
Definition range_doc : AnnoDoc :=
  {| text := "between 5 and 10 cases";
     spacy_tokens := [ tok 0 7 "between" "IN" []; tok 8 9 "5" "CD" [];
                       tok 10 13 "and" "CC" []; tok 14 16 "10" "CD" [];
                       tok 17 22 "case" "NNS" [] ];
     spacy_sentences := [Span 0 22 None];
     spacy_nes := [(8, 16, "CARDINAL")];
     dates := [] |}.

(** "12 on Monday were hospitalized", with "Monday" in the date tier. *)
Definition monday_doc : AnnoDoc :=
  {| text := "12 on Monday were hospitalized";
     spacy_tokens := [ tok 0 2 "12" "CD" []; tok 3 5 "on" "IN" [];
                       tok 6 12 "monday" "NNP" []; tok 13 17 "be" "VBD" [];
                       tok 18 30 "hospitalize" "VBN" [] ];
     spacy_sentences := [Span 0 30 None];
     spacy_nes := [(0, 2, "CARDINAL")];
     dates := [Span 6 12 (Some "DATE")] |}.


(** "3 deaths" *)
Definition deaths_doc : AnnoDoc :=
  {| text := "3 deaths";
     spacy_tokens := [ tok 0 1 "3" "CD" []; tok 2 8 "death" "NNS" [] ];
     spacy_sentences := [Span 0 8 None];
     spacy_nes := [(0, 1, "CARDINAL")];
     dates := [] |}.

(** "the index case", a report of a single case without a number. *)
Definition index_doc : AnnoDoc :=
  {| text := "the index case";
     spacy_tokens := [ tok 0 3 "the" "DT" []; tok 4 9 "index" "NN" [];
                       tok 10 14 "case" "NN" ["the"; "index"] ];
     spacy_sentences := [Span 0 14 None];
     spacy_nes := [];
     dates := [] |}.

(** "at least 5 to 10 cases", the entity tier marking "5 to 10". *)
Definition least_doc : AnnoDoc :=
  {| text := "at least 5 to 10 cases";
     spacy_tokens := [ tok 0 2 "at" "IN" []; tok 3 8 "least" "JJS" [];
                       tok 9 10 "5" "CD" []; tok 11 13 "to" "TO" [];
                       tok 14 16 "10" "CD" []; tok 17 22 "case" "NNS" [] ];
     spacy_sentences := [Span 0 22 None];
     spacy_nes := [(9, 16, "CARDINAL")];
     dates := [] |}.

(** The span returned for "3 deaths". *)
Definition deaths_span : CountSpan :=
  CountSpan_init deaths_doc (Span 0 8 None)
    (count_metadata "3 deaths" ["case"; "death"] (PyInt 3)).

(** The two spans returned for "at least 5 to 10 cases". *)
Definition least_min_span : CountSpan :=
  CountSpan_init least_doc (Span 3 22 None)
    (count_metadata "least 5 to 10 cases" ["case"; "min"; "min"] (PyInt 5)).

Definition least_max_span : CountSpan :=
  CountSpan_init least_doc (Span 11 16 None)
    (count_metadata "10" ["case"; "max"; "min"] (PyInt 10)).

(** The match selected for "at least 5 to 10 cases": the case word, the
    count with its range, and the count with its range once more
    together with the modifier "least". *)
Definition least_range : AnnoSpan :=
  SpanGroup [SpanGroup [SpanGroup [Span 11 13 None] None;
                        SpanGroup [Span 14 16 None] (Some "count")] None]
            (Some "range").

Definition least_counts : AnnoSpan :=
  SpanGroup [SpanGroup [Span 9 10 None] (Some "count"); least_range] None.

Definition least_match : AnnoSpan :=
  SpanGroup [SpanGroup [SpanGroup [Span 17 22 None] None] (Some "case");
             least_counts;
             SpanGroup [least_counts; SpanGroup [Span 3 8 None] (Some "min")] None]
            None.

(** Two reports in two sentences: "12 cases" and "3 deaths". *)
Definition two_reports_doc : AnnoDoc :=
  {| text := "12 cases were reported in the northern districts of the country by officials. 3 deaths followed.";
     spacy_tokens := [ tok 0 2 "12" "CD" []; tok 3 8 "case" "NNS" [];
                       tok 9 13 "be" "VBD" []; tok 14 22 "report" "VBN" [];
                       tok 23 25 "in" "IN" []; tok 26 29 "the" "DT" [];
                       tok 30 38 "northern" "JJ" []; tok 39 48 "district" "NNS" [];
                       tok 49 51 "of" "IN" []; tok 52 55 "the" "DT" [];
                       tok 56 63 "country" "NN" []; tok 64 66 "by" "IN" [];
                       tok 67 76 "official" "NNS" []; tok 76 77 "." "." [];
                       tok 78 79 "3" "CD" []; tok 80 86 "death" "NNS" [];
                       tok 87 95 "follow" "VBD" []; tok 95 96 "." "." [] ];
     spacy_sentences := [Span 0 77 None; Span 78 96 None];
     spacy_nes := [(0, 2, "CARDINAL"); (78, 79, "CARDINAL")];
     dates := [] |}.

(** The extents of two emitted spans overlap, as half-open intervals. *)
Definition cs_overlaps (a b : CountSpan) : bool :=
  (cs_start a <? cs_end b) && (cs_start b <? cs_end a).

Definition cs_overlaps_span (a : CountSpan) (b : AnnoSpan) : bool :=
  (cs_start a <? end_ b) && (start b <? cs_end a).

(** ** The ITIS species importer *)

Module ImportSpecies.

(** The three tables of the synonym database the importer touches, and the
    scratch table [synonyms_init] while it exists.  A [metadata] value may
    be [NULL]. *)
Record Tables := {
  entities : list (string * string * string * string);
  synonyms : list (string * string * Z);
  metadata : list (string * option string);
  synonyms_init : option (list (string * string * Z))
}.

(** A connection, as [get_database_connection(create_database=True)]
    returns it: the tables as the cursor sees them, and as last
    committed. *)
Record Connection := {
  working : Tables;
  committed : Tables;
  closed : bool
}.

(** The ITIS database the importer reads from. *)
Record ItisDb := {
  taxonomic_units : list (Z * string * Z * Z);
  longnames : list (Z * string);
  reference_links : list (Z * option Z);
  vernaculars : list (Z * string);
  vern_ref_links : list (Z * option Z)
}.

(** What the importer reads from its surroundings: the two environment
    variables, the database found at [ITIS_DB_PATH], and what
    [download_itis_database] would fetch. *)
Record Outside := {
  ITIS_DB_PATH : option string;
  ITIS_VERSION : option string;
  db_at_path : ItisDb;
  download : ItisDb * string
}.

Definition str (z : Z) : string := NilZero.string_of_int (Z.to_int z).

Definition set_entities (t : Tables) v :=
  {| entities := v; synonyms := synonyms t; metadata := metadata t;
     synonyms_init := synonyms_init t |}.
Definition set_synonyms (t : Tables) v :=
  {| entities := entities t; synonyms := v; metadata := metadata t;
     synonyms_init := synonyms_init t |}.
Definition set_metadata (t : Tables) v :=
  {| entities := entities t; synonyms := synonyms t; metadata := v;
     synonyms_init := synonyms_init t |}.
Definition set_synonyms_init (t : Tables) v :=
  {| entities := entities t; synonyms := synonyms t; metadata := metadata t;
     synonyms_init := v |}.

Definition execute (f : Tables -> Tables) (c : Connection) : Connection :=
  {| working := f (working c); committed := committed c; closed := closed c |}.

Definition commit (c : Connection) : Connection :=
  {| working := working c; committed := working c; closed := closed c |}.

Definition close (c : Connection) : Connection :=
  {| working := committed c; committed := committed c; closed := true |}.

Definition is_itis (e : string * string * string * string) : bool :=
  String.eqb (snd e) "ITIS".

Definition entity_id (e : string * string * string * string) : string :=
  fst (fst (fst e)).

(** Lines 46 to 51 *)
Definition remove_previous (t : Tables) : Tables :=
  let itis_ids := map entity_id (List.filter is_itis (entities t)) in
  let t := set_synonyms t
             (List.filter (fun s => negb (str_in (snd (fst s)) itis_ids)) (synonyms t)) in
  let t := set_entities t (List.filter (fun e => negb (is_itis e)) (entities t)) in
  set_metadata t
    (List.filter (fun m => negb (String.eqb (fst m) "itis_version")) (metadata t)).

(** [next(cur.execute("SELECT value FROM metadata WHERE property =
    'itis_version'"), None)]: the first such row, a tuple of one value. *)
Definition select_itis_version (t : Tables) : option (list (option string)) :=
  match List.filter (fun m => String.eqb (fst m) "itis_version") (metadata t) with
  | [] => None
  | m :: _ => Some [snd m]
  end.

(** The truth value of [next(..., None)]: [None] is false, a tuple is true
    unless it is empty. *)
Definition truthy {A} (row : option (list A)) : bool :=
  match row with
  | None => false
  | Some tuple => negb (length tuple =? 0)
  end.

(** The truth value of [os.environ.get(name)] *)
Definition truthy_str (v : option string) : bool :=
  match v with
  | None | Some EmptyString => false
  | Some _ => true
  end.

Fixpoint dedup {A} (eqb : A -> A -> bool) (l : list A) : list A :=
  match l with
  | [] => []
  | x :: l' => x :: List.filter (fun y => negb (eqb x y)) (dedup eqb l')
  end.

Definition name_eqb (a b : Z * string) : bool :=
  Z.eqb (fst a) (fst b) && String.eqb (snd a) (snd b).

Definition row_eqb (a b : Z * string * Z) : bool :=
  name_eqb (fst a) (fst b) && Z.eqb (snd a) (snd b).

(** [SELECT tsn, name, count(documentation_id) FROM names LEFT JOIN links
    USING (tsn) GROUP BY tsn, name] *)
Definition names_with_refs (names : list (Z * string)) (links : list (Z * option Z))
  : list (Z * string * Z) :=
  map (fun n =>
         let copies := length (List.filter (name_eqb n) names) in
         let refs := length (List.filter
                               (fun l => Z.eqb (fst l) (fst n)
                                         && match snd l with Some _ => true | None => false end)
                               links) in
         (n, Z.of_nat (copies * refs)))
      (dedup name_eqb names).

(** Lines 85 to 103: the two selections and their [UNION]. *)
Definition synonym_query (itis : ItisDb) : list (Z * string * Z) :=
  dedup row_eqb (names_with_refs (longnames itis) (reference_links itis)
                 ++ names_with_refs (vernaculars itis) (vern_ref_links itis)).

(** Lines 104 to 113, one row of one batch.  [utils.batched] is not among
    the sources at hand; the rows reach [synonyms_init] in the order of
    the query whatever the size of a batch. *)
Definition synonym_tuple (result : Z * string * Z) : string * string * Z :=
  let '(tsn, name, refs) := result in
  let weight := if (3 <=? refs)%Z then 3%Z else refs in
  (name, ("tsn:" ++ str tsn)%string, weight).

Definition key_eqb (a b : string * string * Z) : bool :=
  String.eqb (fst (fst a)) (fst (fst b)) && String.eqb (snd (fst a)) (snd (fst b)).

(** [SELECT synonym, entity_id, max(weight) FROM synonyms_init GROUP BY
    synonym, entity_id] *)
Definition grouped_max (rows : list (string * string * Z)) : list (string * string * Z) :=
  map (fun r =>
         (fst r, fold_right Z.max (snd r)
                   (map snd (List.filter (key_eqb r) rows))))
      (dedup key_eqb rows).

Record Outcome := {
  connection : Connection;
  printed : list string
}.

(** [import_species], lines 41 to 123.  The schema of the synonym database
    is declared by [get_database_connection], which is not among the
    sources at hand; the tables are lists of rows without its constraints.
    The function below is therefore the run in which the database accepts
    every statement: a run in which an [INSERT] is refused raises at that
    statement and is not described. *)
Definition import_species (drop_previous : bool) (outside : Outside)
    (connection : Connection) : Outcome :=
  let cur := connection in
  let out := [] in
  let '(cur, out) :=
    if drop_previous
    then (execute remove_previous cur, out ++ ["Removing previous ITIS data..."])
    else (cur, out) in
  let current_itis_version := select_itis_version (working cur) in
  if truthy current_itis_version then
    {| connection := cur;
       printed := out ++ ["The species data has already been imported. Run this again with --drop-previous to re-import it."] |}
  else
    let '(itis, itis_version, out) :=
      if truthy_str (ITIS_DB_PATH outside)
      then (db_at_path outside, ITIS_VERSION outside, out)
      else (fst (download outside), Some (snd (download outside)),
            out ++ ["Downloading ITIS data from: https://www.itis.gov/downloads/itisSqlite.zip";
                    "Download complete"]) in
    let cur := execute (fun t => set_metadata t
                                   (metadata t ++ [("itis_version", itis_version)])) cur in
    let results :=
      List.filter (fun u => let '(_, _, rank_id, kingdom_id) := u in
                            (100 <? rank_id)%Z && (kingdom_id =? 5)%Z)
                  (taxonomic_units itis) in
    let cur := execute (fun t => set_entities t
                                   (entities t
                                    ++ map (fun u => let '(tsn, complete_name, _, _) := u in
                                                     (("tsn:" ++ str tsn)%string,
                                                      complete_name, "species", "ITIS"))
                                           results)) cur in
    let cur := commit cur in
    let cur := execute (fun t => set_synonyms_init t None) cur in
    let cur := execute (fun t => set_synonyms_init t (Some [])) cur in
    let cur := execute (fun t => set_synonyms_init t
                                   (Some (default [] (synonyms_init t)
                                          ++ map synonym_tuple (synonym_query itis)))) cur in
    let out := out ++ ["Importing synonyms from ITIS database..."] in
    let cur := execute (fun t => set_synonyms t
                                   (synonyms t
                                    ++ grouped_max (default [] (synonyms_init t)))) cur in
    let cur := execute (fun t => set_synonyms_init t None) cur in
    let cur := commit cur in
    let cur := close cur in
    {| connection := cur; printed := out |}.

Definition example_tables : Tables :=
  {| entities := [("tsn:180092", "Homo sapiens", "species", "ITIS")];
     synonyms := [("human", "tsn:180092", 3%Z)];
     metadata := [("itis_version", None)];
     synonyms_init := None |}.

Definition example_connection : Connection :=
  {| working := example_tables; committed := example_tables; closed := false |}.

Definition example_itis : ItisDb :=
  {| taxonomic_units := [(180092%Z, "Homo sapiens", 220%Z, 5%Z)];
     longnames := [(180092%Z, "Homo sapiens")];
     reference_links := [(180092%Z, Some 1%Z)];
     vernaculars := [(180092%Z, "human")];
     vern_ref_links := [] |}.

Definition example_outside : Outside :=
  {| ITIS_DB_PATH := None; ITIS_VERSION := None;
     db_at_path := example_itis; download := (example_itis, "itisSqlite043024") |}.

End ImportSpecies.

(** ** Notions used in the statements *)

Ltac py_unfold :=
  unfold mbind, mret, Py_bind, Py_ret, lift, try_except_type_value, logger_info in *.

(** Two overlapping items of the components lie in the same component. *)
Definition separated (comps : list (list item)) : Prop :=
  forall c1 c2 x y,
    In c1 comps -> In c2 comps -> In x c1 -> In y c2 ->
    overlaps (snd x) (snd y) = true -> c1 = c2.

(** A continuation that ends within the text. *)
Definition bounded (k : nat -> string -> option nat) : Prop :=
  forall pos s e, k pos s = Some e -> e <= pos + String.length s.

(** ** Notions used in the further statements *)

(** The matcher of a sequence of atoms and of a list of alternatives, as
    [m_atom] runs them inside a group. *)
Definition m_seq (ic : bool) (k : nat -> string -> option nat)
  : list atom -> nat -> string -> option nat :=
  fix m_seq (l : list atom) : nat -> string -> option nat :=
    match l with
    | [] => k
    | x :: l' => m_atom ic x (m_seq l')
    end.

Definition m_alts (ic : bool) (k : nat -> string -> option nat) (pos : nat) (s : string)
  : list (list atom) -> option nat :=
  fix m_alts (alts : list (list atom)) : option nat :=
    match alts with
    | [] => None
    | alt :: rest =>
        match m_seq ic k alt pos s with
        | Some e => Some e
        | None => m_alts rest
        end
    end.

(** [s] begins with [w], letter case apart. *)
Fixpoint starts_with_ci (w s : string) : bool :=
  match w with
  | EmptyString => true
  | String c w' =>
      match s with
      | String d s' => same_char true c d && starts_with_ci w' s'
      | EmptyString => false
      end
  end.

Fixpoint string_drop (n : nat) (s : string) : string :=
  match n, s with
  | S n', String _ s' => string_drop n' s'
  | _, _ => s
  end.

(** [s] is [w], letter case apart, possibly followed by one final
    newline. *)
Definition is_word_ci (w s : string) : bool :=
  starts_with_ci w s && at_eol (string_drop (String.length w) s).

(** What the anchored pattern built from the alternatives [ws] accepts:
    a text that begins with an alternative other than the last, or that
    is the last alternative. *)
Fixpoint accepts_alternatives (ws : list string) (s : string) : bool :=
  match ws with
  | [] => at_eol s
  | [w] => is_word_ci w s
  | w :: ws' => starts_with_ci w s || accepts_alternatives ws' s
  end.

(** A continuation that never ends before the offset it is entered at. *)
Definition advancing (k : nat -> string -> option nat) : Prop :=
  forall pos s e, k pos s = Some e -> pos <= e.

(** The count roles of a span have texts that [is_valid_count] accepts. *)
Definition accepted_count (E : Externals) (doc : AnnoDoc) (c : AnnoSpan) : Prop :=
  fst (run (is_valid_count (parse_spelled_number E) (span_text doc c))) = Ok true.

(** A record of a rejected count string. *)
Definition parse_failure (r : log_record) : Prop :=
  exists s, r = (INFO, ("Cannot parse count string: " ++ s)%string).

(** A computation that only appends records of rejected count strings. *)
Definition logs_failures {A} (m : Py A) : Prop :=
  forall log, exists extra,
    snd (m log) = log ++ extra /\ List.Forall parse_failure extra.

(** " and 5 cases", the entity tier marking " and 5": the joiner opens the
    entity text. *)
Definition leading_joiner_doc : AnnoDoc :=
  {| text := " and 5 cases";
     spacy_tokens := [ tok 1 4 "and" "CC" []; tok 5 6 "5" "CD" [];
                       tok 7 12 "case" "NNS" [] ];
     spacy_sentences := [Span 0 12 None];
     spacy_nes := [(0, 6, "CARDINAL")];
     dates := [] |}.

(** "cases rose", without any entity. *)
Definition no_count_doc : AnnoDoc :=
  {| text := "cases rose";
     spacy_tokens := [ tok 0 5 "case" "NNS" []; tok 6 10 "rise" "VBD" [] ];
     spacy_sentences := [Span 0 10 None];
     spacy_nes := [];
     dates := [] |}.

Module ImportNotions.
Import ImportSpecies.

(** The ITIS database and the version the importer takes (lines 56 to
    60). *)
Definition source_of (outside : Outside) : ItisDb * option string :=
  if truthy_str (ITIS_DB_PATH outside)
  then (db_at_path outside, ITIS_VERSION outside)
  else (fst (download outside), Some (snd (download outside))).

(** The rows of lines 72 to 74. *)
Definition new_entities (itis : ItisDb) : list (string * string * string * string) :=
  map (fun u => let '(tsn, complete_name, _, _) := u in
                (("tsn:" ++ str tsn)%string, complete_name, "species", "ITIS"))
      (List.filter (fun u => let '(_, _, rank_id, kingdom_id) := u in
                             (100 <? rank_id)%Z && (kingdom_id =? 5)%Z)
                   (taxonomic_units itis)).

(** The rows of lines 115 to 120. *)
Definition new_synonyms (itis : ItisDb) : list (string * string * Z) :=
  grouped_max (map synonym_tuple (synonym_query itis)).

(** The tables once the import has gone through, from the tables [t] it
    started on. *)
Definition imported (outside : Outside) (t : Tables) : Tables :=
  {| entities := entities t ++ new_entities (fst (source_of outside));
     synonyms := synonyms t ++ new_synonyms (fst (source_of outside));
     metadata := metadata t ++ [("itis_version", snd (source_of outside))];
     synonyms_init := None |}.

(** A new connection to a database whose tables are [t]. *)
Definition connect (t : Tables) : Connection :=
  {| working := t; committed := t; closed := false |}.

Definition other_source (e : string * string * string * string) : bool :=
  negb (is_itis e).

Definition other_property (m : string * option string) : bool :=
  negb (String.eqb (fst m) "itis_version").

(** An ITIS database with a species and a kingdom, and surroundings that
    point at it. *)
Definition plant_itis : ItisDb :=
  {| taxonomic_units := [ (180092%Z, "Homo sapiens", 220%Z, 5%Z);
                          (202422%Z, "Plantae", 10%Z, 3%Z) ];
     longnames := [(180092%Z, "Homo sapiens"); (202422%Z, "Plantae")];
     reference_links := [];
     vernaculars := [];
     vern_ref_links := [] |}.

Definition plant_outside : Outside :=
  {| ITIS_DB_PATH := Some "itis.sqlite"; ITIS_VERSION := Some "itisSqlite043024";
     db_at_path := plant_itis; download := (plant_itis, "itisSqlite043024") |}.

Definition empty_tables : Tables :=
  {| entities := []; synonyms := []; metadata := []; synonyms_init := None |}.

(** A database that holds a disease and its name, and no ITIS data. *)
Definition disease_tables : Tables :=
  {| entities := [("http://purl.obolibrary.org/obo/DOID_4", "disease", "disease",
                   "Disease Ontology")];
     synonyms := [("disease", "http://purl.obolibrary.org/obo/DOID_4", 3%Z)];
     metadata := [];
     synonyms_init := None |}.

End ImportNotions.

(** * Properties *)

Example finditer_joiner :
  finditer false joiner_pattern "5 and 10 or 7" = [(1, 6); (8, 12)].
Proof. reflexivity. Qed.

Example split_on_pipe : split_on "|" "max|less|up" = ["max"; "less"; "up"].
Proof. reflexivity. Qed.

(** The anchors bind to the first and last alternative only, as in the
    pattern text [^to|and|or$]. *)
Example anchored_alternatives :
  re_match true (anchored [lit "to"; lit "and"; lit "or"]) "and" = true
  /\ re_match true (anchored [lit "to"; lit "and"; lit "or"]) "today" = true
  /\ re_match true (anchored [lit "to"; lit "and"; lit "or"]) "ore" = false.
Proof. repeat split; reflexivity. Qed.

(** ** Validation of count strings *)

Lemma Qtrunc_exact q :
  Qeq_bool (inject_Z (Qtrunc q)) q = true ->
  (Qle_bool q (inject_Z 1000000000) = true <-> (Qtrunc q <= 1000000000)%Z).
Proof.
  intros Heq. apply Qeq_bool_iff in Heq.
  rewrite Qle_bool_iff, Zle_Qle.
  split; intros H.
  - apply Qle_trans with q; [apply Qle_lteq; right; exact Heq | exact H].
  - apply Qle_trans with (inject_Z (Qtrunc q)); [apply Qle_lteq; right; symmetry; exact Heq | exact H].
Qed.

Lemma is_valid_count_run parse s log :
  is_valid_count parse s log =
  match s with
  | EmptyString => (Raise IndexError, log)
  | String c _ =>
      if Ascii.eqb c "0" then (Ok false, log) else
      match parse s with
      | PyNone | PyFloat NaN =>
          (Ok false, log ++ [(INFO, ("Cannot parse count string: " ++ s)%string)])
      | PyInt z => (Ok (negb (1000000000 <? z)%Z), log)
      | PyFloat (Finite q) =>
          if Qeq_bool (inject_Z (Qtrunc q)) q
          then (Ok (Qle_bool q (inject_Z 1000000000)), log)
          else (Ok false, log)
      | PyFloat (Inf _) => (Raise OverflowError, log)
      end
  end.
Proof.
  unfold is_valid_count. py_unfold. destruct s as [|c s']; [reflexivity|].
  cbn. destruct (Ascii.eqb c "0"); [reflexivity|].
  destruct (parse (String c s')) as [|z|[q| |b]]; cbn; try reflexivity.
  - rewrite Z.eqb_refl. cbn. destruct (1000000000 <? z)%Z; reflexivity.
  - destruct (Qeq_bool (inject_Z (Qtrunc q)) q); cbn; [|reflexivity].
    destruct (Qle_bool q (inject_Z 1000000000)); reflexivity.
Qed.

(** C8. For a non-empty string, [is_valid_count] returns [True] exactly
    when the string does not begin with the character 0, the parsed value
    is a number equal to an integer, and that integer is at most
    1,000,000,000. *)
Theorem is_valid_count_true_iff parse s :
  s <> EmptyString ->
  fst (run (is_valid_count parse s)) = Ok true <->
  String.get 0 s <> Some "0"%char
  /\ exists z, integer_value (parse s) = Some z /\ (z <= 1000000000)%Z.
Proof.
  intros Hne. unfold run. rewrite is_valid_count_run.
  destruct s as [|c s']; [congruence|].
  change (String.get 0 (String c s')) with (Some c).
  destruct (Ascii.eqb_spec c "0") as [->|Hc]; cbn.
  { split; [discriminate | intros [? _]; congruence]. }
  assert (Hfirst : Some c <> Some "0"%char) by congruence.
  destruct (parse (String c s')) as [|z|[q| |b]]; cbn.
  - split; [discriminate | intros [_ (z & ? & _)]; discriminate].
  - destruct (Z.ltb_spec 1000000000 z); cbn.
    + split; [discriminate | intros [_ (z' & [= <-] & ?)]; lia].
    + split; [intros _; split; [exact Hfirst | exists z; split; [reflexivity | lia]] | reflexivity].
  - destruct (Qeq_bool (inject_Z (Qtrunc q)) q) eqn:Heq; cbn.
    + pose proof (Qtrunc_exact q Heq) as Hle.
      destruct (Qle_bool q (inject_Z 1000000000)); cbn.
      * split; [intros _; split; [exact Hfirst | exists (Qtrunc q); split; [reflexivity | now apply Hle]] | reflexivity].
      * split; [discriminate | intros [_ (z' & [= <-] & Hz)]].
        apply Hle in Hz. discriminate.
    + split; [discriminate | intros [_ (z' & ? & _)]; discriminate].
  - split; [discriminate | intros [_ (z & ? & _)]; discriminate].
  - split; [discriminate | intros [_ (z & ? & _)]; discriminate].
Qed.

Lemma is_valid_count_true_iff_witness :
  "12" <> EmptyString /\
  (fst (run (is_valid_count parse_decimal "12")) = Ok true <->
  String.get 0 "12" <> Some "0"%char
  /\ exists z, integer_value (parse_decimal "12") = Some z /\ (z <= 1000000000)%Z).
Proof.
  split; [discriminate|].
  apply (is_valid_count_true_iff parse_decimal "12"). discriminate.
Defined.

(** C5, as the code has it.  For a non-empty candidate string that the
    parser cannot read, [is_valid_count] returns [False] and raises
    nothing; it logs the failure unless the string begins with the
    character 0, in which case it returns before looking at the parsed
    value.  A named entity with such a text and no single joiner yields no
    count candidate. *)
Theorem unparsable_candidate_dropped E doc ne_span :
  span_text doc ne_span <> EmptyString ->
  parse_spelled_number E (span_text doc ne_span) = PyNone ->
  run (is_valid_count (parse_spelled_number E) (span_text doc ne_span))
  = (Ok false,
     if begins_with_zero (span_text doc ne_span) then []
     else [(INFO, ("Cannot parse count string: " ++ span_text doc ne_span)%string)])
  /\ (length (finditer false joiner_pattern (span_text doc ne_span)) <> 1 ->
      fst (run (ne_counts E doc ne_span)) = Ok []).
Proof.
  intros Hne Hnone.
  assert (Hrun : forall log,
    is_valid_count (parse_spelled_number E) (span_text doc ne_span) log
    = (Ok false,
       log ++ if begins_with_zero (span_text doc ne_span) then []
              else [(INFO, ("Cannot parse count string: " ++ span_text doc ne_span)%string)])).
  { intros log. rewrite is_valid_count_run, Hnone.
    destruct (span_text doc ne_span) as [|c s']; [congruence|]. cbn.
    destruct (Ascii.eqb c "0"); [now rewrite app_nil_r | reflexivity]. }
  split; [apply Hrun|].
  intros Hjoin. unfold run, ne_counts.
  destruct (match label ne_span with Some l => _ | None => false end); [|reflexivity].
  py_unfold. rewrite Hrun.
  destruct (finditer false joiner_pattern (span_text doc ne_span)) as [|[j0 j1] [|]];
    cbn in *; congruence.
Qed.

Lemma unparsable_candidate_dropped_witness :
  span_text monday_doc (Span 6 12 (Some "CARDINAL")) <> EmptyString
  /\ fst (run (ne_counts example_externals monday_doc (Span 6 12 (Some "CARDINAL")))) = Ok [].
Proof.
  split; [discriminate|].
  apply (unparsable_candidate_dropped example_externals monday_doc
           (Span 6 12 (Some "CARDINAL"))); [discriminate | reflexivity | vm_compute; lia].
Defined.

(** C5 as stated fails: a string the parser cannot read and that begins
    with the character 0 is rejected without any log record. *)
Lemma unparsable_zero_prefix_not_logged :
  ~ (forall parse s, parse s = PyNone ->
       exists msg, run (is_valid_count parse s) = (Ok false, [(INFO, msg)])).
Proof.
  intros H. destruct (H parse_decimal "0x" eq_refl) as [msg Hmsg].
  vm_compute in Hmsg. discriminate.
Qed.

(** The first character is read outside the [try]: on the empty string the
    [IndexError] leaves [is_valid_count]. *)
Example is_valid_count_empty parse :
  run (is_valid_count parse "") = (Raise IndexError, []).
Proof. reflexivity. Qed.

(** ** Construction of spans *)

(** C7, as the code has it.  Constructing an [AnnoSpan] whose start
    exceeds its end fails at construction and any other interval is kept
    as given; the constructor of [CountSpan] checks nothing itself and
    takes over the start and end of the span it is given. *)
Theorem span_construction a b l doc span metadata :
  (b < a -> AnnoSpan_init a b l = Raise ValueError)
  /\ (a <= b -> AnnoSpan_init a b l = Ok (Span a b l))
  /\ cs_start (CountSpan_init doc span metadata) = start span
  /\ cs_end (CountSpan_init doc span metadata) = end_ span.
Proof.
  unfold AnnoSpan_init. repeat split.
  - intros H. apply Nat.ltb_lt in H. now rewrite H.
  - intros H. destruct (Nat.ltb_spec b a); [lia | reflexivity].
Qed.

Lemma span_construction_witness :
  3 < 5 /\ AnnoSpan_init 5 3 None = Raise ValueError.
Proof.
  split; [lia|].
  apply (span_construction 5 3 None range_doc (Span 5 3 None) ∅). lia.
Defined.

(** C7 as stated fails for [CountSpan]: built from a span whose start
    exceeds its end, it is constructed all the same, with these offsets. *)
Lemma CountSpan_accepts_inverted_span :
  exists c, CountSpan_init range_doc (Span 5 3 None) ∅ = c
            /\ cs_start c = 5 /\ cs_end c = 3.
Proof. eexists. repeat split. Qed.

(** ** The species importer *)

(** C10. When the metadata table holds a row with property
    [itis_version], [import_species] called without [drop_previous]
    returns after printing its notice: the connection, and with it the
    entities, synonyms and metadata tables, is as before. *)
Theorem import_species_already_imported outside c value :
  In ("itis_version", value) (ImportSpecies.metadata (ImportSpecies.working c)) ->
  ImportSpecies.import_species false outside c
  = {| ImportSpecies.connection := c;
       ImportSpecies.printed :=
         ["The species data has already been imported. Run this again with --drop-previous to re-import it."] |}.
Proof.
  intros Hin. unfold ImportSpecies.import_species.
  assert (Htrue : ImportSpecies.truthy
                    (ImportSpecies.select_itis_version (ImportSpecies.working c)) = true).
  { unfold ImportSpecies.select_itis_version.
    destruct (List.filter _ _) as [|m rest] eqn:Hf; [|reflexivity].
    assert (Hm : In ("itis_version", value)
                    (List.filter (fun m => String.eqb (fst m) "itis_version")
                       (ImportSpecies.metadata (ImportSpecies.working c)))).
    { apply filter_In. split; [exact Hin | reflexivity]. }
    rewrite Hf in Hm. destruct Hm. }
  rewrite Htrue. reflexivity.
Qed.

Lemma import_species_already_imported_witness :
  In ("itis_version", None)
     (ImportSpecies.metadata (ImportSpecies.working ImportSpecies.example_connection))
  /\ ImportSpecies.connection
       (ImportSpecies.import_species false ImportSpecies.example_outside
          ImportSpecies.example_connection)
     = ImportSpecies.example_connection.
Proof.
  split; [left; reflexivity|].
  rewrite (import_species_already_imported ImportSpecies.example_outside
             ImportSpecies.example_connection None); [reflexivity | left; reflexivity].
Defined.

(** ** Spans and their roles *)

Lemma AnnoSpan_nested_ind (P : AnnoSpan -> Prop) :
  (forall a b l, P (Span a b l)) ->
  (forall base_spans l, Forall P base_spans -> P (SpanGroup base_spans l)) ->
  forall s, P s.
Proof.
  intros Hleaf Hgroup.
  fix IH 1. intros [a b l | base_spans l].
  - apply Hleaf.
  - apply Hgroup. induction base_spans as [|x xs IHxs]; constructor.
    + apply IH.
    + exact IHxs.
Qed.

Lemma fold_min_le a l : fold_right Nat.min a l <= a
  /\ forall x, In x l -> fold_right Nat.min a l <= x.
Proof.
  induction l as [|y l [IHa IHl]]; cbn.
  - split; [lia | intros x []].
  - split; [lia|]. intros x [<-|Hx]; [lia|]. specialize (IHl x Hx). lia.
Qed.

Lemma fold_max_ge a l : a <= fold_right Nat.max a l
  /\ forall x, In x l -> x <= fold_right Nat.max a l.
Proof.
  induction l as [|y l [IHa IHl]]; cbn.
  - split; [lia | intros x []].
  - split; [lia|]. intros x [<-|Hx]; [lia|]. specialize (IHl x Hx). lia.
Qed.

(** A group covers each of its constituents. *)
Lemma group_covers base_spans l b :
  In b base_spans ->
  start (SpanGroup base_spans l) <= start b
  /\ end_ b <= end_ (SpanGroup base_spans l).
Proof.
  intros Hin. destruct base_spans as [|x xs]; [destruct Hin|]. cbn.
  destruct (fold_min_le (start x) (map start xs)) as [Hm1 Hm2].
  destruct (fold_max_ge (end_ x) (map end_ xs)) as [HM1 HM2].
  destruct Hin as [<-|Hin]; [lia|].
  split; [apply Hm2 | apply HM2]; now apply in_map.
Qed.

(** The extent of a group made of one span is that of the span. *)
Lemma group_of_one s l :
  start (SpanGroup [s] l) = start s /\ end_ (SpanGroup [s] l) = end_ s.
Proof. split; reflexivity. Qed.

Lemma overlaps_sym a b : overlaps a b = overlaps b a.
Proof. unfold overlaps. apply andb_comm. Qed.

(** A span inside a span that stays clear of [d] stays clear of [d]. *)
Lemma overlaps_inside outer inner d :
  start outer <= start inner -> end_ inner <= end_ outer ->
  overlaps outer d = false -> overlaps inner d = false.
Proof.
  unfold overlaps. intros Hs He H.
  apply andb_false_iff in H. apply andb_false_iff.
  destruct H as [H|H]; apply Nat.ltb_ge in H; [left | right]; apply Nat.ltb_ge; lia.
Qed.

Lemma roles_at_merge d1 d2 k :
  roles_at (merge_roles d1 d2) k = roles_at d1 k ++ roles_at d2 k.
Proof.
  unfold roles_at, merge_roles. rewrite lookup_union_with.
  destruct (d1 !! k), (d2 !! k); cbn; auto using app_nil_r.
Qed.

Lemma roles_at_fold ds k :
  roles_at (fold_right merge_roles ∅ ds) k = concat (map (fun d => roles_at d k) ds).
Proof.
  induction ds as [|d ds IH]; cbn.
  - unfold roles_at. now rewrite lookup_empty.
  - now rewrite roles_at_merge, IH.
Qed.

(** The spans a group records under a role: those its constituents record,
    in order, then the group itself when the role is its label. *)
Lemma roles_at_group base_spans l k :
  roles_at (groupdict (SpanGroup base_spans l)) k
  = concat (map (fun b => roles_at (groupdict b) k) base_spans)
    ++ (if decide (l = Some k) then [SpanGroup base_spans l] else []).
Proof.
  cbn [groupdict]. destruct l as [name|].
  - unfold roles_at at 1. rewrite lookup_insert.
    destruct (decide (name = k)) as [->|Hne].
    + rewrite decide_True by reflexivity. cbn.
      now rewrite roles_at_fold, map_map.
    + rewrite decide_False by congruence.
      fold (roles_at (fold_right merge_roles ∅ (map groupdict base_spans)) k).
      now rewrite roles_at_fold, map_map, app_nil_r.
  - rewrite decide_False by discriminate.
    now rewrite roles_at_fold, map_map, app_nil_r.
Qed.

Lemma roles_at_leaf a b l k : roles_at (groupdict (Span a b l)) k = [].
Proof. unfold roles_at. cbn. now rewrite lookup_empty. Qed.

Lemma in_roles_at_group base_spans l k c :
  In c (roles_at (groupdict (SpanGroup base_spans l)) k) <->
  (exists b, In b base_spans /\ In c (roles_at (groupdict b) k))
  \/ (l = Some k /\ c = SpanGroup base_spans l).
Proof.
  rewrite roles_at_group, in_app_iff, in_concat. split.
  - intros [(x & Hx & Hc)|Hc].
    + apply in_map_iff in Hx as (b & <- & Hb). left. eauto.
    + destruct (decide (l = Some k)); [|destruct Hc].
      destruct Hc as [<-|[]]. right. auto.
  - intros [(b & Hb & Hc)|[-> ->]].
    + left. exists (roles_at (groupdict b) k). split; [|exact Hc].
      apply in_map_iff. eauto.
    + right. rewrite decide_True by reflexivity. now left.
Qed.

(** No role of a span is recorded with an empty list. *)
Lemma groupdict_nonempty s k found :
  groupdict s !! k = Some found -> found <> [].
Proof.
  revert k found. induction s as [a b l | base_spans l IH] using AnnoSpan_nested_ind;
    intros k found.
  - cbn. rewrite lookup_empty. discriminate.
  - assert (Hout : forall k found,
              fold_right merge_roles ∅ (map groupdict base_spans) !! k = Some found ->
              found <> []).
    { clear k found. induction IH as [|b bs Hb _ IHbs]; intros k found; cbn.
      - rewrite lookup_empty. discriminate.
      - unfold merge_roles at 1. rewrite lookup_union_with.
        destruct (groupdict b !! k) as [l1|] eqn:H1;
          destruct (fold_right merge_roles ∅ (map groupdict bs) !! k) as [l2|] eqn:H2;
          cbn; intros [= <-]; eauto.
        specialize (Hb _ _ H1). destruct l1; [congruence | discriminate]. }
    cbn [groupdict]. destruct l as [name|]; [|apply Hout].
    rewrite lookup_insert. destruct (decide (name = k)).
    + intros [= <-]. destruct (roles_at _ name); discriminate.
    + apply Hout.
Qed.

Lemma groupdict_lookup s k :
  groupdict s !! k = None <-> roles_at (groupdict s) k = [].
Proof.
  unfold roles_at. destruct (groupdict s !! k) as [found|] eqn:H; cbn.
  - split; [discriminate|]. intros ->. now apply groupdict_nonempty in H.
  - split; reflexivity.
Qed.

(** Every span recorded in the roles of [s] lies within [s]. *)
Lemma roles_within s k c :
  In c (roles_at (groupdict s) k) -> start s <= start c /\ end_ c <= end_ s.
Proof.
  revert k c. induction s as [a b l | base_spans l IH] using AnnoSpan_nested_ind;
    intros k c Hc.
  - rewrite roles_at_leaf in Hc. destruct Hc.
  - apply in_roles_at_group in Hc as [(b & Hb & Hc)|[_ ->]]; [|lia].
    rewrite List.Forall_forall in IH. specialize (IH b Hb k c Hc).
    pose proof (group_covers base_spans l b Hb). lia.
Qed.

(** The roles of a recorded span are among the roles of the recording
    span. *)
Lemma roles_nested s k r k' c :
  In r (roles_at (groupdict s) k) -> In c (roles_at (groupdict r) k') ->
  In c (roles_at (groupdict s) k').
Proof.
  revert k r k' c. induction s as [a b l | base_spans l IH] using AnnoSpan_nested_ind;
    intros k r k' c Hr Hc.
  - rewrite roles_at_leaf in Hr. destruct Hr.
  - apply in_roles_at_group in Hr as [(b & Hb & Hr)|[_ ->]]; [|exact Hc].
    apply in_roles_at_group. left. exists b. split; [exact Hb|].
    rewrite List.Forall_forall in IH. eapply IH; eauto.
Qed.

(** ** The loop over the selected matches *)

Lemma insert_sorted_In x y l : In y (insert_sorted x l) <-> y = x \/ In y l.
Proof.
  induction l as [|z l IH]; cbn.
  - intuition.
  - destruct (String.leb x z); cbn; [intuition | rewrite IH; intuition].
Qed.

Lemma sorted_In y l : In y (sorted l) <-> In y l.
Proof.
  induction l as [|x l IH]; cbn; [reflexivity|].
  rewrite insert_sorted_In, IH. intuition.
Qed.

Lemma count_metadata_lookup t attrs n :
  count_metadata t attrs n !! "text" = Some (OStr t)
  /\ count_metadata t attrs n !! "attributes" = Some (OList attrs)
  /\ count_metadata t attrs n !! "count" = Some (ONum n).
Proof. repeat split. Qed.

Lemma mapM_py_inv {A B} (f : A -> Py B) xs :
  forall log ys log',
    mapM_py f xs log = (Ok ys, log') ->
    Forall2 (fun x y => exists l l', f x l = (Ok y, l')) xs ys.
Proof.
  induction xs as [|x xs IH]; intros log ys log'; cbn; py_unfold.
  - intros [= <- _]. constructor.
  - destruct (f x log) as [[y|e] l1] eqn:Hx; [|discriminate].
    destruct (mapM_py f xs l1) as [[ys'|e] l2] eqn:Hxs; [|discriminate].
    intros [= <- _]. constructor; eauto.
Qed.

Lemma in_concat_Forall2 {A B} (R : A -> list B -> Prop) xs groups c :
  Forall2 R xs groups -> In c (concat groups) ->
  exists x group, In x xs /\ R x group /\ In c group.
Proof.
  induction 1 as [|x g xs gs HR _ IH]; cbn; [intros []|].
  rewrite in_app_iff. intros [Hc|Hc].
  - exists x, g. auto.
  - destruct (IH Hc) as (x' & g' & ? & ? & ?). exists x', g'. auto.
Qed.

(** What one turn of the loop appends for the match [m] when it raises
    nothing: one span for the match, and for a match with a range a
    second span for the range. *)
Lemma count_spans_for_inv E doc m log cs log' :
  count_spans_for E doc m log = (Ok cs, log') ->
  exists count,
    match roles_at (groupdict m) "count" with
    | first :: _ => count = parse_spelled_number E (span_text doc first)
    | [] => count = PyInt 1
    end
    /\ ((roles_at (groupdict m) "range" = []
         /\ cs = [CountSpan_init doc m
                    (count_metadata (span_text doc m)
                       (sorted (elements (matching_attributes_of (groupdict m))))
                       count)])
        \/ exists range_match others upper uppers,
            roles_at (groupdict m) "range" = range_match :: others
            /\ roles_at (groupdict range_match) "count" = upper :: uppers
            /\ cs = [CountSpan_init doc m
                       (count_metadata (span_text doc m)
                          (sorted (elements (matching_attributes_of (groupdict m)) ++ ["min"]))
                          count);
                     CountSpan_init doc range_match
                       (count_metadata (span_text doc upper)
                          (sorted (elements (matching_attributes_of (groupdict m)) ++ ["max"]))
                          (parse_spelled_number E (span_text doc upper)))]).
Proof.
  unfold count_spans_for, roles_at, getitem, item0. py_unfold.
  destruct (groupdict m !! "count") as [[|first found]|] eqn:Hcount; cbn;
    try discriminate.
  - destruct (groupdict m !! "range") as [[|range_match others]|] eqn:Hrange; cbn;
      try discriminate.
    + destruct (groupdict range_match !! "count") as [[|upper uppers]|] eqn:Hupper;
        cbn; try discriminate.
      intros [= <- _]. eexists. split; [reflexivity|]. right.
      exists range_match, others, upper, uppers. rewrite Hupper. auto.
    + intros [= <- _]. eexists. split; [reflexivity|]. left. auto.
  - destruct (groupdict m !! "range") as [[|range_match others]|] eqn:Hrange; cbn;
      try discriminate.
    + destruct (groupdict range_match !! "count") as [[|upper uppers]|] eqn:Hupper;
        cbn; try discriminate.
      intros [= <- _]. eexists. split; [reflexivity|]. right.
      exists range_match, others, upper, uppers. rewrite Hupper. auto.
    + intros [= <- _]. eexists. split; [reflexivity|]. left. auto.
Qed.

Lemma count_spans_of_inv E doc annotated log cs log' c :
  count_spans_of E doc annotated log = (Ok cs, log') -> In c cs ->
  exists m group l l',
    In m annotated /\ count_spans_for E doc m l = (Ok group, l') /\ In c group.
Proof.
  unfold count_spans_of. py_unfold.
  destruct (mapM_py _ annotated log) as [[groups|e] l1] eqn:Hrun; [|discriminate].
  intros [= <- _] Hc. apply mapM_py_inv in Hrun.
  destruct (in_concat_Forall2 _ _ _ _ Hrun Hc) as (m & group & Hm & (l & l' & Hf) & Hg).
  exists m, group, l, l'. auto.
Qed.

Lemma annotate_inv E doc log cs log' :
  annotate E doc log = (Ok cs, log') ->
  exists annotated l1,
    annotated_counts E doc log = (Ok annotated, l1)
    /\ count_spans_of E doc annotated l1 = (Ok cs, log').
Proof.
  unfold annotate. py_unfold.
  destruct (annotated_counts E doc log) as [[annotated|e] l1]; [|discriminate].
  eauto.
Qed.

Lemma case_in_matching_attributes match_dict :
  "death" ∈ matching_attributes_of match_dict
  \/ "hospitalization" ∈ matching_attributes_of match_dict ->
  "case" ∈ matching_attributes_of match_dict.
Proof.
  unfold matching_attributes_of.
  generalize (list_to_set
                (List.filter (fun attr => bool_decide (is_Some (match_dict !! attr)))
                             attributes) : gset string).
  intros base.
  destruct (bool_decide ("death" ∈ base)) eqn:Hd;
    destruct (bool_decide ("hospitalization" ∈ base)) eqn:Hh; cbn [orb];
    try (intros _; apply elem_of_union_r, elem_of_singleton; reflexivity).
  apply bool_decide_eq_false in Hd, Hh. tauto.
Qed.

Lemma attributes_with_extra match_dict extra x :
  In x (sorted (elements (matching_attributes_of match_dict) ++ extra)) <->
  x ∈ matching_attributes_of match_dict \/ In x extra.
Proof.
  rewrite sorted_In, in_app_iff, <- list_elem_of_In, elem_of_elements. reflexivity.
Qed.

(** The attribute lists one turn of the loop writes obey the inference
    rule. *)
Lemma inference_rule_for_match E doc m log group log' c attrs :
  count_spans_for E doc m log = (Ok group, log') -> In c group ->
  cs_metadata c !! "attributes" = Some (OList attrs) ->
  In "death" attrs \/ In "hospitalization" attrs -> In "case" attrs.
Proof.
  intros Hrun Hc Hattrs Hdh.
  apply count_spans_for_inv in Hrun as (count & _ & Hcases).
  assert (Hshape : exists extra,
            attrs = sorted (elements (matching_attributes_of (groupdict m)) ++ extra)
            /\ (extra = [] \/ extra = ["min"] \/ extra = ["max"])).
  { destruct Hcases as [[_ ->]|(r & rs & u & us & _ & _ & ->)].
    - destruct Hc as [<-|[]]. cbn in Hattrs.
      destruct (count_metadata_lookup (span_text doc m)
                  (sorted (elements (matching_attributes_of (groupdict m)))) count)
        as (_ & Ha & _).
      rewrite Ha in Hattrs. injection Hattrs as <-.
      exists []. rewrite app_nil_r. auto.
    - destruct Hc as [<-|[<-|[]]]; cbn in Hattrs.
      + destruct (count_metadata_lookup (span_text doc m)
                    (sorted (elements (matching_attributes_of (groupdict m)) ++ ["min"]))
                    count) as (_ & Ha & _).
        rewrite Ha in Hattrs. injection Hattrs as <-. eauto.
      + destruct (count_metadata_lookup (span_text doc u)
                    (sorted (elements (matching_attributes_of (groupdict m)) ++ ["max"]))
                    (parse_spelled_number E (span_text doc u))) as (_ & Ha & _).
        rewrite Ha in Hattrs. injection Hattrs as <-. eauto. }
  destruct Hshape as (extra & -> & Hextra).
  apply attributes_with_extra. left. apply case_in_matching_attributes.
  destruct Hdh as [H|H]; apply attributes_with_extra in H as [H|H]; auto;
    destruct Hextra as [-> | [-> | ->]]; cbn in H; intuition discriminate.
Qed.

(** C4. In every span [annotate] returns, attributes that contain
    ['death'] or ['hospitalization'] contain ['case'] as well. *)
Theorem death_implies_case E doc cs :
  fst (run (annotate E doc)) = Ok cs ->
  forall c attrs,
    In c cs -> cs_metadata c !! "attributes" = Some (OList attrs) ->
    In "death" attrs \/ In "hospitalization" attrs -> In "case" attrs.
Proof.
  unfold run. destruct (annotate E doc []) as [r log'] eqn:Hrun. cbn. intros ->.
  intros c attrs Hc Hattrs Hdh.
  apply annotate_inv in Hrun as (annotated & l1 & _ & Hspans).
  destruct (count_spans_of_inv _ _ _ _ _ _ _ Hspans Hc) as (m & group & l & l' & _ & Hfor & Hg).
  eapply inference_rule_for_match; eauto.
Qed.

Lemma death_implies_case_witness :
  fst (run (annotate example_externals deaths_doc))
  = Ok [CountSpan_init deaths_doc (Span 0 8 None)
          (count_metadata "3 deaths" ["case"; "death"] (PyInt 3))]
  /\ In "case" ["case"; "death"].
Proof.
  assert (Hrun : fst (run (annotate example_externals deaths_doc))
                 = Ok [CountSpan_init deaths_doc (Span 0 8 None)
                         (count_metadata "3 deaths" ["case"; "death"] (PyInt 3))])
    by (vm_compute; reflexivity).
  split; [exact Hrun|].
  apply (death_implies_case example_externals deaths_doc _ Hrun
           (CountSpan_init deaths_doc (Span 0 8 None)
              (count_metadata "3 deaths" ["case"; "death"] (PyInt 3)))
           ["case"; "death"]).
  - left. reflexivity.
  - reflexivity.
  - left. right. left. reflexivity.
Defined.

(** C9. A match whose roles hold no ['count'] yields, when the loop body
    raises nothing, exactly one span, and its count is 1. *)
Theorem singular_case_count_is_one E doc m log cs log' :
  groupdict m !! "count" = None ->
  count_spans_for E doc m log = (Ok cs, log') ->
  exists c, cs = [c]
            /\ cs_start c = start m /\ cs_end c = end_ m
            /\ cs_metadata c !! "count" = Some (ONum (PyInt 1)).
Proof.
  intros Hnone Hrun. apply groupdict_lookup in Hnone.
  apply count_spans_for_inv in Hrun as (count & Hcount & Hcases).
  rewrite Hnone in Hcount. subst count.
  destruct Hcases as [[_ ->]|(r & rs & u & us & Hrange & Hupper & _)].
  - eexists. split; [reflexivity|]. repeat split.
  - exfalso.
    assert (Hin : In u (roles_at (groupdict m) "count")).
    { apply roles_nested with (k := "range") (r := r).
      - rewrite Hrange. now left.
      - rewrite Hupper. now left. }
    rewrite Hnone in Hin. destruct Hin.
Qed.

Lemma singular_case_count_is_one_witness :
  exists c,
    [CountSpan_init index_doc
       (SpanGroup [SpanGroup [Span 10 14 None] None] (Some "case"))
       (count_metadata "case" ["case"] (PyInt 1))] = [c]
    /\ cs_start c = 10 /\ cs_end c = 14
    /\ cs_metadata c !! "count" = Some (ONum (PyInt 1)).
Proof.
  apply (singular_case_count_is_one example_externals index_doc
           (SpanGroup [SpanGroup [Span 10 14 None] None] (Some "case")) [] _ []).
  - vm_compute. reflexivity.
  - vm_compute. reflexivity.
Defined.

(** ** The overlap resolver selects no two overlapping spans *)

Section OptimalSpanSetFacts.

Variable weight : AnnoSpan -> nat.

Lemma touches_spec x c :
  touches x c = true <-> exists y, In y c /\ overlaps (snd x) (snd y) = true.
Proof. unfold touches. apply existsb_exists. Qed.

Lemma add_to_components_In comps x c :
  In c (add_to_components comps x) <->
  (In c comps /\ touches x c = false)
  \/ c = concat (List.filter (touches x) comps) ++ [x].
Proof.
  unfold add_to_components. rewrite partition_as_filter.
  rewrite in_app_iff, filter_In. cbn.
  rewrite negb_true_iff. intuition.
Qed.

Lemma in_merged comps x y :
  In y (concat (List.filter (touches x) comps) ++ [x]) <->
  (exists c, In c comps /\ touches x c = true /\ In y c) \/ y = x.
Proof.
  rewrite in_app_iff, in_concat. cbn. split.
  - intros [(c & Hc & Hy)|[<-|[]]]; [|now right].
    apply filter_In in Hc as [Hc Ht]. left. eauto.
  - intros [(c & Hc & Ht & Hy) | ->]; [|auto].
    left. exists c. split; [|exact Hy]. apply filter_In. auto.
Qed.

Lemma add_to_components_separated comps x :
  separated comps -> separated (add_to_components comps x).
Proof.
  intros Hsep c1 c2 a b H1 H2 Ha Hb Hab.
  apply add_to_components_In in H1, H2.
  assert (Hclash : forall c d u v,
            In c comps -> touches x c = false ->
            d = concat (List.filter (touches x) comps) ++ [x] ->
            In u c -> In v d -> overlaps (snd u) (snd v) = true -> False).
  { intros c d u v Hc Hfar -> Hu Hv Huv.
    apply in_merged in Hv as [(t & Ht & Hnear & Hv) | ->].
    - assert (c = t) by (eapply Hsep; eauto). subst t. congruence.
    - assert (touches x c = true); [|congruence].
      apply touches_spec. exists u. split; [exact Hu|]. now rewrite overlaps_sym. }
  destruct H1 as [[H1 Hf1]|H1], H2 as [[H2 Hf2]|H2].
  - eapply Hsep; eauto.
  - exfalso. eapply Hclash; eauto.
  - exfalso. rewrite overlaps_sym in Hab. eapply Hclash; eauto.
  - congruence.
Qed.

Lemma add_to_components_incl comps x (known : list item) :
  (forall c, In c comps -> incl c known) ->
  forall c, In c (add_to_components comps x) -> incl c (x :: known).
Proof.
  intros Hknown c Hc y Hy.
  apply add_to_components_In in Hc as [[Hc _] | ->].
  - right. eapply Hknown; eauto.
  - apply in_merged in Hy as [(t & Ht & _ & Hy) | ->]; [right | now left].
    eapply Hknown; eauto.
Qed.

Lemma components_facts items :
  separated (components items)
  /\ forall c, In c (components items) -> incl c items.
Proof.
  unfold components.
  assert (Hgen : forall comps known,
            separated comps -> (forall c, In c comps -> incl c known) ->
            separated (fold_left add_to_components items comps)
            /\ forall c, In c (fold_left add_to_components items comps) ->
                         incl c (known ++ items)).
  { induction items as [|x items IH]; intros comps known Hsep Hincl; cbn.
    - split; [exact Hsep|]. intros c Hc. rewrite app_nil_r. auto.
    - destruct (IH (add_to_components comps x) (x :: known)) as [Hs Hi].
      + now apply add_to_components_separated.
      + now apply add_to_components_incl.
      + split; [exact Hs|]. intros c Hc y Hy.
        specialize (Hi c Hc y Hy). cbn in Hi.
        rewrite in_app_iff in *. cbn. tauto. }
  destruct (Hgen [] []) as [Hs Hi].
  - intros c1 c2 x y [].
  - intros c [].
  - split; [exact Hs | exact Hi].
Qed.

Lemma sublists_incl {A} (l sub : list A) : In sub (sublists l) -> incl sub l.
Proof.
  revert sub. induction l as [|x l IH]; cbn; intros sub.
  - intros [<-|[]]. intros y [].
  - rewrite in_app_iff, in_map_iff. intros [(s & <- & Hs)|Hs].
    + intros y [<-|Hy]; [now left | right; now apply (IH s)].
    + intros y Hy. right. now apply (IH sub).
Qed.

Lemma non_overlapping_pairs l :
  non_overlapping l = true ->
  ForallOrdPairs (fun x y => overlaps (snd x) (snd y) = false) l.
Proof.
  induction l as [|x l IH]; cbn; [constructor|].
  intros H. apply andb_true_iff in H as [Hx Hl].
  constructor; [|auto].
  rewrite forallb_forall in Hx. apply List.Forall_forall.
  intros y Hy. specialize (Hx y Hy). now apply negb_true_iff in Hx.
Qed.

Lemma fold_left_choice {A} (better : A -> A -> bool) candidates init :
  let chosen := fold_left (fun best c => if better c best then c else best)
                          candidates init in
  chosen = init \/ In chosen candidates.
Proof.
  revert init. induction candidates as [|c cs IH]; cbn; intros init; [now left|].
  destruct (IH (if better c init then c else init)) as [H|H]; [|auto].
  rewrite H. destruct (better c init); auto.
Qed.

Lemma best_of_spec component :
  non_overlapping (best_of weight component) = true
  /\ incl (best_of weight component) component.
Proof.
  unfold best_of.
  destruct (fold_left_choice (preferred weight)
              (List.filter non_overlapping (sublists component)) []) as [H|H].
  - rewrite H. split; [reflexivity | intros y []].
  - apply filter_In in H as [Hsub Hno]. split; [exact Hno|].
    now apply sublists_incl.
Qed.

Lemma keys_injective {A} (l : list (nat * A)) x y :
  List.NoDup (map fst l) -> In x l -> In y l -> fst x = fst y -> x = y.
Proof.
  induction l as [|z l IH]; cbn; [intros _ []|].
  intros Hnd Hx Hy Hxy. inversion Hnd as [|? ? Hz Hnd']; subst.
  destruct Hx as [->|Hx], Hy as [->|Hy]; auto.
  - exfalso. apply Hz. rewrite Hxy. now apply in_map.
  - exfalso. apply Hz. rewrite <- Hxy. now apply in_map.
Qed.

Lemma ordpairs_from_keys {A} (R : A -> A -> Prop) (l : list (nat * A)) :
  List.NoDup (map fst l) ->
  (forall x y, In x l -> In y l -> fst x <> fst y -> R (snd x) (snd y)) ->
  ForallOrdPairs R (map snd l).
Proof.
  induction l as [|x l IH]; cbn; intros Hnd HR; [constructor|].
  inversion Hnd as [|? ? Hx Hnd']; subst.
  constructor.
  - apply List.Forall_forall. intros b Hb.
    apply in_map_iff in Hb as (y & <- & Hy).
    apply HR; [now left | now right|].
    intros Heq. apply Hx. rewrite Heq. now apply in_map.
  - apply IH; [exact Hnd'|]. intros a b Ha Hb. apply HR; now right.
Qed.

Lemma NoDup_keys_filter {A} (f : nat * A -> bool) (l : list (nat * A)) :
  List.NoDup (map fst l) -> List.NoDup (map fst (List.filter f l)).
Proof.
  induction l as [|x l IH]; cbn; intros Hnd; [constructor|].
  inversion Hnd as [|? ? Hx Hnd']; subst.
  destruct (f x); cbn; [|auto].
  constructor; [|auto].
  intros Hin. apply Hx. apply in_map_iff in Hin as (y & Hy & Hin).
  apply filter_In in Hin as [Hin _]. rewrite <- Hy. now apply in_map.
Qed.

Lemma optimal_items_chosen items x :
  List.NoDup (map fst items) ->
  In x (optimal_items weight items) ->
  In x items /\ exists c, In c (components items) /\ In x (best_of weight c).
Proof.
  intros Hnd Hx. unfold optimal_items in Hx.
  apply filter_In in Hx as [Hx Hsel]. split; [exact Hx|].
  apply existsb_exists in Hsel as (i & Hi & Heq).
  apply Nat.eqb_eq in Heq.
  apply in_map_iff in Hi as (x' & <- & Hx').
  apply in_flat_map in Hx' as (c & Hc & Hx').
  exists c. split; [exact Hc|].
  assert (x = x'); [|now subst].
  apply (keys_injective items); auto.
  destruct (components_facts items) as [_ Hincl].
  apply (Hincl c Hc). now apply best_of_spec.
Qed.

Lemma optimal_items_non_overlapping items :
  List.NoDup (map fst items) ->
  ForallOrdPairs (fun a b => overlaps a b = false)
                 (map snd (optimal_items weight items)).
Proof.
  intros Hnd. apply ordpairs_from_keys.
  - unfold optimal_items. now apply NoDup_keys_filter.
  - intros x y Hx Hy Hxy.
    apply optimal_items_chosen in Hx as (_ & c1 & Hc1 & Hx); [|exact Hnd].
    apply optimal_items_chosen in Hy as (_ & c2 & Hc2 & Hy); [|exact Hnd].
    destruct (overlaps (snd x) (snd y)) eqn:Hov; [exfalso | reflexivity].
    destruct (components_facts items) as [Hsep _].
    destruct (best_of_spec c1) as [Hno1 Hin1], (best_of_spec c2) as [_ Hin2].
    assert (c1 = c2) by (eapply Hsep; eauto). subst c2.
    apply non_overlapping_pairs in Hno1.
    destruct (ForallOrdPairs_In Hno1 x y Hx Hy) as [->|[H|H]].
    + now apply Hxy.
    + congruence.
    + rewrite overlaps_sym in H. congruence.
Qed.

Lemma indexed_keys {A} (l : list A) :
  List.NoDup (map fst (combine (seq 0 (length l)) l)).
Proof.
  assert (Hkeys : forall n, map fst (combine (seq n (length l)) l) = seq n (length l)).
  { induction l as [|x l IH]; intros n; cbn; [reflexivity | now rewrite IH]. }
  rewrite Hkeys. apply seq_NoDup.
Qed.

Lemma optimal_span_set_non_overlapping tier :
  ForallOrdPairs (fun a b => overlaps a b = false) (optimal_span_set weight tier).
Proof. apply optimal_items_non_overlapping, indexed_keys. Qed.

Lemma optimal_span_set_incl tier : incl (optimal_span_set weight tier) tier.
Proof.
  intros s Hs. unfold optimal_span_set in Hs.
  apply in_map_iff in Hs as ([i s'] & <- & Hs).
  apply filter_In in Hs as [Hs _]. now apply in_combine_r in Hs.
Qed.

End OptimalSpanSetFacts.

(** ** What the pipeline keeps of its count candidates

    Between the count tier and the selected matches, spans are only ever
    filtered, or grouped under a label other than ['count'].  A property of
    spans that holds of plain spans and passes to such groups therefore
    passes from the count tier to every selected match. *)

Section Preserved.

Variable P : AnnoSpan -> Prop.
Hypothesis P_leaf : forall a b l, P (Span a b l).
Hypothesis P_group :
  forall base_spans l,
    l <> Some "count" -> List.Forall P base_spans -> P (SpanGroup base_spans l).

Variable E : Externals.
Variable doc : AnnoDoc.

Lemma ra_label_preserves name spans :
  name <> Some "count" -> List.Forall P spans -> List.Forall P (ra_label name spans).
Proof.
  intros Hname Hspans. unfold ra_label. apply List.Forall_map.
  eapply List.Forall_impl; [|exact Hspans].
  intros s Hs. apply P_group; [exact Hname | now constructor].
Qed.

Lemma chains_preserve gap tiers :
  List.Forall (List.Forall P) tiers -> List.Forall (List.Forall P) (chains gap tiers).
Proof.
  induction 1 as [|t rest Ht Hrest IH]; [constructor|].
  cbn [chains]. destruct rest as [|t' rest'].
  - apply List.Forall_map. eapply List.Forall_impl; [|exact Ht].
    intros s Hs. now constructor.
  - apply List.Forall_forall. intros chain Hchain.
    apply in_flat_map in Hchain as (s1 & Hs1 & Hchain).
    apply in_flat_map in Hchain as (tail & Htail & Hchain).
    destruct tail as [|s2 tail']; [destruct Hchain|].
    destruct (may_follow gap s1 s2); [|destruct Hchain].
    destruct Hchain as [<-|[]]. constructor.
    + rewrite List.Forall_forall in Ht. now apply Ht.
    + rewrite List.Forall_forall in IH. now apply IH.
Qed.

Lemma follows_preserves gap tiers :
  List.Forall (List.Forall P) tiers -> List.Forall P (follows gap tiers).
Proof.
  intros H. unfold follows. apply List.Forall_map.
  eapply List.Forall_impl; [|apply chains_preserve; exact H].
  intros chain Hchain. now apply P_group.
Qed.

Lemma with_nearby_preserves self other max_dist :
  List.Forall P self -> List.Forall P other ->
  List.Forall P (with_nearby_spans_from self other max_dist).
Proof.
  intros Hself Hother. apply List.Forall_forall. intros g Hg.
  unfold with_nearby_spans_from in Hg.
  apply in_flat_map in Hg as (s & Hs & Hg).
  destruct (List.filter _ other) as [|o nearby] eqn:Hnear; [destruct Hg|].
  destruct Hg as [<-|[]]. apply P_group; [discriminate|].
  constructor.
  - rewrite List.Forall_forall in Hself. now apply Hself.
  - rewrite <- Hnear. apply List.Forall_forall. intros x Hx.
    apply filter_In in Hx as [Hx _].
    rewrite List.Forall_forall in Hother. now apply Hother.
Qed.

Lemma without_overlaps_incl self other : incl (without_overlaps self other) self.
Proof. intros s Hs. now apply filter_In in Hs as [Hs _]. Qed.

Lemma grouped_spans_incl self candidates partial :
  incl (flat_map snd (group_spans_by_containing_span self candidates partial))
       candidates.
Proof.
  intros c Hc. apply in_flat_map in Hc as ([container group] & Hg & Hc).
  unfold group_spans_by_containing_span in Hg.
  apply in_map_iff in Hg as (s & Heq & _).
  inversion Heq; subst. cbn [snd] in Hc.
  now apply filter_In in Hc as [Hc _].
Qed.

Lemma token_spans_preserved tokens : List.Forall P (map token_span tokens).
Proof. apply List.Forall_map, List.Forall_forall. intros t _. apply P_leaf. Qed.

Lemma search_regex_preserved regex_term name :
  name <> Some "count" -> List.Forall P (search_regex doc regex_term name).
Proof.
  intros Hname. unfold search_regex. apply ra_label_preserves; [exact Hname|].
  eapply incl_Forall; [|apply token_spans_preserved].
  intros s Hs. unfold search_spans_for_regex in Hs.
  apply filter_In in Hs as [Hs _]. exact Hs.
Qed.

Lemma search_lemmas_preserved lemmas name :
  name <> Some "count" -> List.Forall P (search_lemmas doc lemmas name).
Proof.
  intros Hname. unfold search_lemmas.
  apply ra_label_preserves; [exact Hname | apply token_spans_preserved].
Qed.

Lemma count_descriptions_preserved counts_tier :
  List.Forall P counts_tier -> List.Forall P (count_descriptions_of E doc counts_tier).
Proof.
  unfold count_descriptions_of.
  assert (Hnames : List.Forall (fun group => head (split_on "|" group) <> Some "count")
                     modifier_lemma_groups).
  { repeat constructor; discriminate. }
  revert counts_tier.
  induction Hnames as [|group groups Hname _ IH]; intros tier Htier; cbn [fold_left].
  - exact Htier.
  - apply IH. apply List.Forall_app. split; [exact Htier|].
    apply with_nearby_preserves; [exact Htier|].
    now apply search_lemmas_preserved.
Qed.

Lemma case_descriptions_preserved : List.Forall P (case_descriptions E doc).
Proof.
  unfold case_descriptions, person_descriptions.
  assert (Hdescriptions :
    List.Forall P
      (ra_label (Some "death")
         (search_lemmas doc ["death"; "die"; "kill"; "claim"; "fatality"; "deceased"] None)
       ++ ra_label (Some "hospitalization")
            (search_lemmas doc ["hospital"; "hospitalize"] None)
       ++ ra_label (Some "case")
            (search_lemmas doc ["case"; "infect"; "infection"; "stricken"] None))).
  { repeat (apply List.Forall_app; split);
      (apply ra_label_preserves; [discriminate|]);
      now apply search_lemmas_preserved. }
  assert (Hselected :
    List.Forall P
      (optimal_span_set (prefer_default E)
         (ra_follows E
            [search_lemmas doc ["suspect"] (Some "suspected")
             ++ search_lemmas doc ["confirm"] (Some "confirmed");
             ra_label (Some "death")
               (search_lemmas doc ["death"; "die"; "kill"; "claim"; "fatality"; "deceased"] None)
             ++ ra_label (Some "hospitalization")
                  (search_lemmas doc ["hospital"; "hospitalize"] None)
             ++ ra_label (Some "case")
                  (search_lemmas doc ["case"; "infect"; "infection"; "stricken"] None)]
          ++ (ra_label (Some "death")
                (search_lemmas doc ["death"; "die"; "kill"; "claim"; "fatality"; "deceased"] None)
              ++ ra_label (Some "hospitalization")
                   (search_lemmas doc ["hospital"; "hospitalize"] None)
              ++ ra_label (Some "case")
                   (search_lemmas doc ["case"; "infect"; "infection"; "stricken"] None))))).
  { eapply incl_Forall; [apply optimal_span_set_incl|].
    apply List.Forall_app. split; [|exact Hdescriptions].
    apply follows_preserves. repeat constructor; [|exact Hdescriptions].
    apply List.Forall_app. split; now apply search_lemmas_preserved. }
  apply List.Forall_app. split; [exact Hselected|].
  apply List.Forall_app. split; [now apply search_lemmas_preserved|].
  apply with_nearby_preserves; [now apply search_lemmas_preserved | exact Hselected].
Qed.

Lemma singular_case_descriptions_preserved singular_case_spans :
  List.Forall P (singular_case_descriptions_of E doc singular_case_spans).
Proof.
  apply List.Forall_forall. intros s Hs. unfold singular_case_descriptions_of in Hs.
  apply in_flat_map in Hs as (g & Hg & Hs). destruct g as [container group].
  cbn [fst snd] in Hs. destruct (0 <? length group); [|destruct Hs].
  destruct Hs as [<-|[]].
  unfold group_spans_by_containing_span in Hg.
  apply in_map_iff in Hg as (c & Heq & Hc).
  inversion Heq; subst.
  pose proof case_descriptions_preserved as Hall.
  rewrite List.Forall_forall in Hall. now apply Hall.
Qed.

Lemma all_potential_counts_preserved counts_tier singular_case_spans :
  List.Forall P counts_tier ->
  List.Forall P (all_potential_counts_of E doc counts_tier
                   (singular_case_descriptions_of E doc singular_case_spans)).
Proof.
  intros Htier. unfold all_potential_counts_of.
  pose proof (count_descriptions_preserved counts_tier Htier) as Hdescr.
  apply List.Forall_app. split.
  { apply with_nearby_preserves; [apply case_descriptions_preserved | exact Hdescr]. }
  apply List.Forall_app. split.
  { apply follows_preserves. constructor; [|constructor; [exact Htier | constructor]].
    now apply search_regex_preserved. }
  apply List.Forall_app. split; [exact Hdescr|].
  apply singular_case_descriptions_preserved.
Qed.

Lemma selected_preserved counts_tier singular_case_spans :
  List.Forall P counts_tier ->
  List.Forall P
    (optimal_span_set (prefer_num_spans E)
       (single_sentence_counts_of doc
          (all_potential_counts_of E doc counts_tier
             (singular_case_descriptions_of E doc singular_case_spans)))).
Proof.
  intros Htier.
  eapply incl_Forall; [apply optimal_span_set_incl|].
  eapply incl_Forall; [apply grouped_spans_incl|].
  now apply all_potential_counts_preserved.
Qed.

End Preserved.

Lemma annotated_counts_inv E doc log annotated log' :
  annotated_counts E doc log = (Ok annotated, log') ->
  exists counts l1 singular_case_spans,
    count_candidates E doc log = (Ok counts, l1)
    /\ annotated
       = optimal_span_set (prefer_num_spans E)
           (single_sentence_counts_of doc
              (all_potential_counts_of E doc (counts_tier_of E doc counts)
                 (singular_case_descriptions_of E doc singular_case_spans))).
Proof.
  unfold annotated_counts. py_unfold.
  destruct (count_candidates E doc log) as [[counts|e] l1]; [|discriminate].
  destruct (filtered_singular_case_spans E doc l1) as [[singular|e] l2]; [|discriminate].
  intros [= <- _]. eauto.
Qed.

(** ** Overlaps among the returned spans *)

(** C1, as the code has it.  The output of [optimal_span_set] holds no two
    overlapping spans, so the matches selected for the result do not
    overlap one another.  A match without a range yields exactly one
    span, of its own extent.  A match with a range yields exactly two: one
    of its own extent and one more, for the range, with the extent of the
    range; the range lies within the match, so the two spans overlap
    unless the range is empty. *)
Theorem selected_matches_non_overlapping E doc :
  (forall weight tier,
      ForallOrdPairs (fun a b => overlaps a b = false) (optimal_span_set weight tier))
  /\ forall log annotated log',
      annotated_counts E doc log = (Ok annotated, log') ->
      ForallOrdPairs (fun a b => overlaps a b = false) annotated
      /\ forall m l cs l',
          count_spans_for E doc m l = (Ok cs, l') ->
          match roles_at (groupdict m) "range" with
          | [] => exists c, cs = [c] /\ cs_start c = start m /\ cs_end c = end_ m
          | range_match :: _ =>
              exists c c',
                cs = [c; c']
                /\ cs_start c = start m /\ cs_end c = end_ m
                /\ cs_start c' = start range_match /\ cs_end c' = end_ range_match
                /\ start m <= start range_match /\ end_ range_match <= end_ m
                /\ (start range_match < end_ range_match -> cs_overlaps c c' = true)
          end.
Proof.
  split; [intros; apply optimal_span_set_non_overlapping|].
  intros log annotated log' Hrun. split.
  - apply annotated_counts_inv in Hrun as (counts & l1 & singular & _ & ->).
    apply optimal_span_set_non_overlapping.
  - intros m l cs l' Hfor.
    apply count_spans_for_inv in Hfor as (count & _ & Hcases).
    destruct Hcases as [[-> ->]|(r & rs & u & us & Hrange & _ & ->)].
    + eexists. split; [reflexivity|]. split; reflexivity.
    + rewrite Hrange.
      assert (Hin : start m <= start r /\ end_ r <= end_ m).
      { apply roles_within with (k := "range"). rewrite Hrange. now left. }
      eexists _, _. split; [reflexivity|].
      cbn [CountSpan_init cs_start cs_end]. repeat (split; [reflexivity|]).
      split; [apply Hin|]. split; [apply Hin|].
      intros Hlt. unfold cs_overlaps. cbn [CountSpan_init cs_start cs_end].
      apply andb_true_iff. split; apply Nat.ltb_lt; lia.
Qed.

(** The two reports of [two_reports_doc] are selected as two matches; the
    match selected for "at least 5 to 10 cases" holds a range and yields
    two spans. *)
Lemma selected_matches_non_overlapping_witness :
  annotated_counts example_externals two_reports_doc []
  = (Ok [SpanGroup
           [SpanGroup [SpanGroup [Span 3 8 None] None] (Some "case");
            SpanGroup [Span 0 2 (Some "CARDINAL")] (Some "count")]
           None;
         SpanGroup
           [SpanGroup [SpanGroup [Span 80 86 None] None] (Some "death");
            SpanGroup [Span 78 79 (Some "CARDINAL")] (Some "count")]
           None], [])
  /\ ForallOrdPairs (fun a b => overlaps a b = false)
       [SpanGroup
          [SpanGroup [SpanGroup [Span 3 8 None] None] (Some "case");
           SpanGroup [Span 0 2 (Some "CARDINAL")] (Some "count")]
          None;
        SpanGroup
          [SpanGroup [SpanGroup [Span 80 86 None] None] (Some "death");
           SpanGroup [Span 78 79 (Some "CARDINAL")] (Some "count")]
          None]
  /\ annotated_counts example_externals least_doc []
     = (Ok [least_match], [(INFO, "Cannot parse count string: 5 to 10")])
  /\ count_spans_for example_externals least_doc least_match []
     = (Ok [least_min_span; least_max_span], [])
  /\ exists c c',
      [least_min_span; least_max_span] = [c; c']
      /\ cs_start c = start least_match /\ cs_end c = end_ least_match
      /\ cs_start c' = start least_range /\ cs_end c' = end_ least_range
      /\ start least_match <= start least_range
      /\ end_ least_range <= end_ least_match
      /\ (start least_range < end_ least_range -> cs_overlaps c c' = true).
Proof.
  assert (Hrun : annotated_counts example_externals two_reports_doc []
                 = (Ok [SpanGroup
                          [SpanGroup [SpanGroup [Span 3 8 None] None] (Some "case");
                           SpanGroup [Span 0 2 (Some "CARDINAL")] (Some "count")]
                          None;
                        SpanGroup
                          [SpanGroup [SpanGroup [Span 80 86 None] None] (Some "death");
                           SpanGroup [Span 78 79 (Some "CARDINAL")] (Some "count")]
                          None], []))
    by (vm_compute; reflexivity).
  assert (Hleast : annotated_counts example_externals least_doc []
                   = (Ok [least_match], [(INFO, "Cannot parse count string: 5 to 10")]))
    by (vm_compute; reflexivity).
  assert (Hfor : count_spans_for example_externals least_doc least_match []
                 = (Ok [least_min_span; least_max_span], []))
    by (vm_compute; reflexivity).
  split; [exact Hrun|].
  split.
  { destruct (selected_matches_non_overlapping example_externals two_reports_doc)
      as [_ H].
    exact (proj1 (H _ _ _ Hrun)). }
  split; [exact Hleast|]. split; [exact Hfor|].
  destruct (selected_matches_non_overlapping example_externals least_doc) as [_ H].
  exact (proj2 (H _ _ _ Hleast) least_match [] _ [] Hfor).
Defined.

(** C1 as stated fails for the returned tier: for "at least 5 to 10
    cases" the span of the match, from offset 3 to 22, and the span of
    its range, from 11 to 16, overlap. *)
Lemma range_spans_overlap :
  exists c1 c2,
    fst (run (annotate example_externals least_doc)) = Ok [c1; c2]
    /\ (cs_start c1, cs_end c1) = (3, 22)
    /\ (cs_start c2, cs_end c2) = (11, 16)
    /\ cs_overlaps c1 c2 = true.
Proof.
  exists least_min_span, least_max_span.
  repeat split; vm_compute; reflexivity.
Qed.

(** ** Counts and dates *)

Lemma counts_tier_incl E doc counts :
  incl (counts_tier_of E doc counts) (ranges_of E doc counts ++ counts).
Proof.
  unfold counts_tier_of. intros s Hs.
  do 3 apply without_overlaps_incl in Hs.
  now apply optimal_span_set_incl in Hs.
Qed.

Lemma counts_tier_clear E doc counts s d :
  In s (counts_tier_of E doc counts) -> In d (dates doc) -> overlaps s d = false.
Proof.
  unfold counts_tier_of, without_overlaps at 1. intros Hs Hd.
  apply filter_In in Hs as [_ Hs]. apply negb_true_iff in Hs.
  destruct (overlaps s d) eqn:Hov; [|reflexivity].
  assert (existsb (overlaps s) (dates doc) = true); [|congruence].
  apply existsb_exists. eauto.
Qed.

(** C2, as the code has it.  A count candidate that overlaps a date span
    is dropped from the count tier, and what stays is kept whole; so in
    every selected match the spans recorded under ['count'], from which
    the reported numbers are read, overlap no date span. *)
Theorem counts_clear_of_dates E doc :
  (forall counts s,
      In s (counts_tier_of E doc counts) ->
      In s (ranges_of E doc counts ++ counts)
      /\ forall d, In d (dates doc) -> overlaps s d = false)
  /\ forall log annotated log',
      annotated_counts E doc log = (Ok annotated, log') ->
      forall m c d,
        In m annotated -> In c (roles_at (groupdict m) "count") ->
        In d (dates doc) -> overlaps c d = false.
Proof.
  split.
  - intros counts s Hs. split; [now apply counts_tier_incl|].
    intros d Hd. eapply counts_tier_clear; eauto.
  - intros log annotated log' Hrun m c d Hm Hc Hd.
    apply annotated_counts_inv in Hrun as (counts & l1 & singular & _ & ->).
    set (clear := fun s => forall c, In c (roles_at (groupdict s) "count") ->
                                     forall d, In d (dates doc) -> overlaps c d = false).
    assert (Hall : List.Forall clear
              (optimal_span_set (prefer_num_spans E)
                 (single_sentence_counts_of doc
                    (all_potential_counts_of E doc (counts_tier_of E doc counts)
                       (singular_case_descriptions_of E doc singular))))).
    { apply selected_preserved.
      - intros a b l c' Hc'. rewrite roles_at_leaf in Hc'. destruct Hc'.
      - intros base_spans l Hl Hbase c' Hc' d' Hd'.
        apply in_roles_at_group in Hc' as [(b & Hb & Hc')|[-> _]]; [|congruence].
        rewrite List.Forall_forall in Hbase. eapply Hbase; eauto.
      - apply List.Forall_forall. intros s Hs c' Hc' d' Hd'.
        destruct (roles_within s "count" c' Hc') as [Hstart Hend].
        apply overlaps_inside with (outer := s); auto.
        eapply counts_tier_clear; eauto. }
    rewrite List.Forall_forall in Hall. exact (Hall m Hm c Hc d Hd).
Qed.

Lemma counts_clear_of_dates_witness :
  annotated_counts example_externals monday_doc []
  = (Ok [SpanGroup
           [SpanGroup [SpanGroup [Span 18 30 None] None] (Some "hospitalization");
            SpanGroup [Span 0 2 (Some "CARDINAL")] (Some "count")]
           None], [])
  /\ overlaps (SpanGroup [Span 0 2 (Some "CARDINAL")] (Some "count"))
              (Span 6 12 (Some "DATE")) = false.
Proof.
  assert (Hrun : annotated_counts example_externals monday_doc []
                 = (Ok [SpanGroup
                          [SpanGroup [SpanGroup [Span 18 30 None] None]
                             (Some "hospitalization");
                           SpanGroup [Span 0 2 (Some "CARDINAL")] (Some "count")]
                          None], []))
    by (vm_compute; reflexivity).
  split; [exact Hrun|].
  destruct (counts_clear_of_dates example_externals monday_doc) as [_ H].
  apply (H _ _ _ Hrun
           (SpanGroup
              [SpanGroup [SpanGroup [Span 18 30 None] None] (Some "hospitalization");
               SpanGroup [Span 0 2 (Some "CARDINAL")] (Some "count")]
              None)).
  - left. reflexivity.
  - vm_compute. left. reflexivity.
  - left. reflexivity.
Defined.

(** C2 as stated fails: in "12 on Monday were hospitalized" the returned
    span runs from the count to the description and covers the date. *)
Lemma count_span_overlaps_date :
  exists c d,
    fst (run (annotate example_externals monday_doc)) = Ok [c]
    /\ In d (dates monday_doc)
    /\ cs_overlaps_span c d = true.
Proof.
  exists (CountSpan_init monday_doc (Span 0 30 None)
            (count_metadata "12 on Monday were hospitalized"
               ["case"; "hospitalization"] (PyInt 12))),
         (Span 6 12 (Some "DATE")).
  split; [vm_compute; reflexivity|].
  split; [left; reflexivity | reflexivity].
Qed.

(** ** The serialized spans *)

Lemma to_dict_lookups doc c t attrs n :
  cs_metadata c = count_metadata t attrs n ->
  to_dict doc c !! "start" = Some (ONum (PyInt (Z.of_nat (cs_start c))))
  /\ to_dict doc c !! "end" = Some (ONum (PyInt (Z.of_nat (cs_end c))))
  /\ to_dict doc c !! "label" = Some (OStr (cs_label c))
  /\ to_dict doc c !! "text" = Some (OStr t)
  /\ to_dict doc c !! "attributes" = Some (OList attrs)
  /\ to_dict doc c !! "count" = Some (ONum n).
Proof.
  intros Hmeta. unfold to_dict. rewrite Hmeta. repeat split.
Qed.

(** C6 fails in the code.  For "at least 5 to 10 cases" the attributes
    that [to_dict] gives for the first returned span are the list
    ['case', 'min', 'min'], which holds ['min'] twice, and those of the
    second are ['case', 'max', 'min']: lines 270 and 275 append ['min'] and
    ['max'] to the list made of the set of matching attributes instead of
    adding them to the set. *)
Lemma attributes_repeat_min :
  fst (run (annotate example_externals least_doc)) = Ok [least_min_span; least_max_span]
  /\ to_dict least_doc least_min_span !! "attributes"
     = Some (OList ["case"; "min"; "min"])
  /\ to_dict least_doc least_max_span !! "attributes"
     = Some (OList ["case"; "max"; "min"])
  /\ ~ List.NoDup ["case"; "min"; "min"].
Proof.
  split; [vm_compute; reflexivity|].
  split; [reflexivity|]. split; [reflexivity|].
  intros Hnd. inversion Hnd as [|? ? _ Hnd']; subst.
  inversion Hnd' as [|? ? Hmin _]; subst.
  apply Hmin. left. reflexivity.
Qed.

(** ** Ranges *)

Lemma atom_nested_ind (P : atom -> Prop) :
  (forall c, P (Chr c)) -> P Whitespace -> P Bol -> P Eol ->
  (forall alternatives, List.Forall (List.Forall P) alternatives -> P (Grp alternatives)) ->
  (forall a, P a -> P (Opt a)) ->
  forall a, P a.
Proof.
  intros HChr HWs HBol HEol HGrp HOpt.
  fix IH 1. intros [c| | | |alternatives|a].
  - apply HChr.
  - exact HWs.
  - exact HBol.
  - exact HEol.
  - apply HGrp.
    induction alternatives as [|alt alts IHalts]; constructor; [|exact IHalts].
    induction alt as [|x xs IHxs]; constructor; [apply IH | exact IHxs].
  - apply HOpt, IH.
Qed.

Lemma m_atom_bounded ic a : forall k, bounded k -> bounded (m_atom ic a k).
Proof.
  induction a as [c| | | |alternatives IH|a IH] using atom_nested_ind;
    intros k Hk pos s e; cbn [m_atom].
  - destruct s as [|d s']; [discriminate|].
    destruct (same_char ic c d); [|discriminate].
    intros H. apply Hk in H. cbn. lia.
  - destruct s as [|d s']; [discriminate|].
    destruct (is_space d); [|discriminate].
    intros H. apply Hk in H. cbn. lia.
  - destruct (pos =? 0); [apply Hk | discriminate].
  - destruct (at_eol s); [apply Hk | discriminate].
  - induction IH as [|alt alts Halt _ IHalts]; [discriminate|].
    assert (Hseq : bounded
              ((fix m_seq (l : list atom) : nat -> string -> option nat :=
                  match l with
                  | [] => k
                  | x :: l' => m_atom ic x (m_seq l')
                  end) alt)).
    { clear IHalts. induction Halt as [|x xs Hx _ IHxs]; [exact Hk|].
      apply Hx. exact IHxs. }
    destruct ((fix m_seq (l : list atom) : nat -> string -> option nat :=
                 match l with
                 | [] => k
                 | x :: l' => m_atom ic x (m_seq l')
                 end) alt pos s) as [e'|] eqn:Hfirst.
    + intros [= <-]. now apply Hseq in Hfirst.
    + exact IHalts.
  - destruct (m_atom ic a k pos s) as [e'|] eqn:Hfirst.
    + intros [= <-]. eapply IH; eauto.
    + apply Hk.
Qed.

Lemma match_at_bounded ic p pos s e :
  match_at ic p pos s = Some e -> e <= pos + String.length s.
Proof.
  unfold match_at. apply m_atom_bounded.
  intros pos' s' e' [= <-]. lia.
Qed.

Lemma finditer_from_bounded ic p s :
  forall pos skip,
    List.Forall (fun span : nat * nat => snd span <= pos + String.length s)
                (finditer_from ic p pos skip s).
Proof.
  induction s as [|c s' IH]; intros pos skip; cbn [finditer_from]; [constructor|].
  assert (Hshift : forall skip',
            List.Forall (fun span : nat * nat =>
                           snd span <= pos + String.length (String c s'))
                        (finditer_from ic p (S pos) skip' s')).
  { intros skip'. eapply List.Forall_impl; [|apply (IH (S pos) skip')].
    intros span Hspan. cbn in *. lia. }
  destruct skip as [|skip']; [|apply Hshift].
  destruct (match_at ic p pos (String c s')) as [e|] eqn:Hm; [|apply Hshift].
  constructor; [|apply Hshift].
  now apply match_at_bounded in Hm.
Qed.

Lemma substring_length n m s : String.length (substring n m s) <= m.
Proof.
  revert n m. induction s as [|c s' IH]; intros [|n] [|m]; cbn; try lia.
  - specialize (IH 0 m). lia.
  - apply (IH n 0).
  - apply (IH n (S m)).
Qed.

(** The end of the single joiner lies within the entity span. *)
Lemma joiner_within doc a b l j0 j1 :
  finditer false joiner_pattern (span_text doc (Span a b l)) = [(j0, j1)] ->
  a + j1 <= b.
Proof.
  unfold span_text, text_of, slice. cbn [start end_].
  pose proof (substring_length a (b - a) (text doc)) as Hlen.
  pose proof (finditer_from_bounded false joiner_pattern
                (substring a (b - a) (text doc)) 0 0) as Hbound.
  fold (finditer false joiner_pattern (substring a (b - a) (text doc))) in Hbound.
  intros Hfind. rewrite Hfind in Hbound.
  inversion Hbound as [|? ? Hj _]; subst. cbn [snd] in Hj.
  destruct (substring a (b - a) (text doc)) as [|c s'].
  - discriminate Hfind.
  - cbn [String.length] in Hlen, Hj. lia.
Qed.

Lemma is_valid_count_fst parse s log :
  fst (is_valid_count parse s log) = fst (run (is_valid_count parse s)).
Proof.
  unfold run. rewrite !is_valid_count_run.
  destruct s as [|c s']; [reflexivity|].
  destruct (Ascii.eqb c "0"); [reflexivity|].
  destruct (parse (String c s')) as [|z|[q| |b]]; try reflexivity.
  destruct (Qeq_bool (inject_Z (Qtrunc q)) q); reflexivity.
Qed.

Lemma substring_none n s : substring n 0 s = EmptyString.
Proof.
  revert s. induction n as [|n IH]; intros [|c s']; cbn; auto.
Qed.

Lemma ne_counts_fst E doc ne log :
  fst (ne_counts E doc ne log) = fst (run (ne_counts E doc ne)).
Proof.
  unfold run, ne_counts.
  destruct (match label ne with Some l => _ | None => false end); [|reflexivity].
  py_unfold.
  pose proof (is_valid_count_fst (parse_spelled_number E) (span_text doc ne) log) as H0.
  unfold run in H0.
  destruct (is_valid_count _ (span_text doc ne) log) as [r0 l0],
           (is_valid_count _ (span_text doc ne) []) as [r0' l0'].
  cbn [fst] in H0. subst r0'. destruct r0 as [[|]|e]; try reflexivity.
  destruct (finditer false joiner_pattern (span_text doc ne)) as [|[j0 j1] [|]];
    try reflexivity.
  destruct (AnnoSpan_init (start ne) (start ne + j0) None) as [range_start|e];
    [|reflexivity].
  destruct (AnnoSpan_init (start ne + j1) (end_ ne) None) as [range_end|e];
    [|reflexivity].
  pose proof (is_valid_count_fst (parse_spelled_number E) (span_text doc range_start) l0) as H1.
  pose proof (is_valid_count_fst (parse_spelled_number E) (span_text doc range_start) l0') as H1'.
  destruct (is_valid_count _ (span_text doc range_start) l0) as [r1 l1],
           (is_valid_count _ (span_text doc range_start) l0') as [r1' l1'].
  cbn [fst] in H1, H1'. rewrite <- H1' in H1. subst r1'.
  destruct r1 as [v1|e]; [|reflexivity].
  pose proof (is_valid_count_fst (parse_spelled_number E) (span_text doc range_end) l1) as H2.
  pose proof (is_valid_count_fst (parse_spelled_number E) (span_text doc range_end) l1') as H2'.
  destruct (is_valid_count _ (span_text doc range_end) l1) as [r2 l2],
           (is_valid_count _ (span_text doc range_end) l1') as [r2' l2'].
  cbn [fst] in H2, H2'. rewrite <- H2' in H2. subst r2'.
  destruct r2 as [v2|e]; reflexivity.
Qed.




(** * Further properties *)

(** ** The search patterns *)

Lemma m_atom_group ic alternatives k pos s :
  m_atom ic (Grp alternatives) k pos s = m_alts ic k pos s alternatives.
Proof. reflexivity. Qed.

Lemma m_seq_app ic k l1 l2 :
  m_seq ic k (l1 ++ l2) = m_seq ic (m_seq ic k l2) l1.
Proof.
  induction l1 as [|x l1 IH]; cbn; [reflexivity | now rewrite IH].
Qed.

Lemma m_seq_lit k w pos s :
  m_seq true k (lit w) pos s
  = if starts_with_ci w s
    then k (pos + String.length w) (string_drop (String.length w) s)
    else None.
Proof.
  revert pos s. induction w as [|c w IH]; intros pos s; cbn -[same_char].
  - now rewrite Nat.add_0_r.
  - destruct s as [|d s']; [reflexivity|].
    destruct (same_char true c d); cbn -[same_char]; [|reflexivity].
    fold (m_seq true k (lit w)). rewrite IH. now rewrite Nat.add_succ_r.
Qed.

Lemma m_alts_closed ws pos s :
  match m_alts true (fun e _ => Some e) pos s (pattern_concat (map lit ws) [[Eol]]) with
  | Some _ => true
  | None => false
  end = accepts_alternatives ws s.
Proof.
  induction ws as [|w ws IH].
  - cbn. destruct (at_eol s); reflexivity.
  - destruct ws as [|w2 ws'].
    + cbn [map pattern_concat m_alts accepts_alternatives].
      rewrite m_seq_app, m_seq_lit. unfold is_word_ci.
      destruct (starts_with_ci w s); [|reflexivity].
      cbn. destruct (at_eol _); reflexivity.
    + change (pattern_concat (map lit (w :: w2 :: ws')) [[Eol]])
        with (lit w :: pattern_concat (map lit (w2 :: ws')) [[Eol]]).
      cbn [m_alts accepts_alternatives]. rewrite m_seq_lit.
      destruct (starts_with_ci w s); [reflexivity|]. exact IH.
Qed.

Lemma anchored_at_start p s :
  match_at true (anchored p) 0 s
  = m_alts true (fun e _ => Some e) 0 s (pattern_concat p [[Eol]]).
Proof.
  unfold match_at, anchored. rewrite m_atom_group.
  assert (Hne : pattern_concat p [[Eol]] <> []).
  { induction p as [|alt p IH]; cbn; [discriminate|].
    destruct p; discriminate. }
  destruct (pattern_concat p [[Eol]]) as [|first rest]; [congruence|].
  reflexivity.
Qed.

(** X1. For a pattern made of literal alternatives, [search_spans_for_regex]
    keeps exactly the spans whose text, letter case apart, begins with an
    alternative other than the last, or is the last alternative (a final
    newline apart): of [^] and [$] joined to the pattern text, each binds
    to one alternative only. *)
Theorem search_spans_for_regex_accepts doc ws spans span :
  In span (search_spans_for_regex doc (map lit ws) spans) <->
  In span spans /\ accepts_alternatives ws (text_of (text doc) span) = true.
Proof.
  unfold search_spans_for_regex. rewrite filter_In.
  unfold re_match. rewrite anchored_at_start, m_alts_closed. reflexivity.
Qed.

(** ** Count candidates of an entity *)

Lemma m_atom_advancing ic a : forall k, advancing k -> advancing (m_atom ic a k).
Proof.
  induction a as [c| | | |alternatives IH|a IH] using atom_nested_ind;
    intros k Hk pos s e; cbn [m_atom].
  - destruct s as [|d s']; [discriminate|].
    destruct (same_char ic c d); [|discriminate].
    intros H. apply Hk in H. lia.
  - destruct s as [|d s']; [discriminate|].
    destruct (is_space d); [|discriminate].
    intros H. apply Hk in H. lia.
  - destruct (pos =? 0); [apply Hk | discriminate].
  - destruct (at_eol s); [apply Hk | discriminate].
  - induction IH as [|alt alts Halt _ IHalts]; [discriminate|].
    assert (Hseq : advancing (m_seq ic k alt)).
    { clear IHalts. induction Halt as [|x xs Hx _ IHxs]; [exact Hk|].
      apply Hx. exact IHxs. }
    change (match m_seq ic k alt pos s with
            | Some e0 => Some e0
            | None => m_alts ic k pos s alts
            end = Some e -> pos <= e).
    change (m_alts ic k pos s alts = Some e -> pos <= e) in IHalts.
    destruct (m_seq ic k alt pos s) as [e'|] eqn:Hfirst.
    + intros [= <-]. now apply Hseq in Hfirst.
    + exact IHalts.
  - destruct (m_atom ic a k pos s) as [e'|] eqn:Hfirst.
    + intros [= <-]. eapply IH; eauto.
    + apply Hk.
Qed.

(** A joiner takes up at least one character. *)
Lemma joiner_consumes pos s e :
  match_at false joiner_pattern pos s = Some e -> pos < e.
Proof.
  unfold match_at, joiner_pattern. rewrite m_atom_group. cbn [m_alts m_seq].
  destruct (m_atom false Whitespace _ pos s) as [e'|] eqn:Hm; [|discriminate].
  intros [= <-]. cbn [m_atom] in Hm.
  destruct s as [|d s']; [discriminate|].
  destruct (is_space d); [|discriminate].
  assert (Hrest : advancing
            (m_atom false (Grp [lit "to"; lit "and"; lit "or"])
               (m_atom false Whitespace (fun e _ => Some e)))).
  { apply m_atom_advancing, m_atom_advancing. intros p t e0 [= <-]. lia. }
  apply Hrest in Hm. lia.
Qed.

Lemma finditer_joiner_nonempty s :
  forall pos skip,
    List.Forall (fun span : nat * nat => fst span < snd span)
                (finditer_from false joiner_pattern pos skip s).
Proof.
  induction s as [|c s' IH]; intros pos skip; cbn [finditer_from]; [constructor|].
  destruct skip as [|skip']; [|apply IH].
  destruct (match_at false joiner_pattern pos (String c s')) as [e|] eqn:Hm; [|apply IH].
  constructor; [|apply IH]. now apply joiner_consumes in Hm.
Qed.

(** The sides of a joiner are apart. *)
Lemma joiner_sides doc a b l j0 j1 :
  finditer false joiner_pattern (span_text doc (Span a b l)) = [(j0, j1)] ->
  j0 < j1.
Proof.
  intros Hfind.
  pose proof (finditer_joiner_nonempty (span_text doc (Span a b l)) 0 0) as H.
  fold (finditer false joiner_pattern (span_text doc (Span a b l))) in H.
  rewrite Hfind in H. now inversion H.
Qed.

(** X2. The count candidates an entity span yields are at most two, each
    labelled ['count'] and lying within the entity span, and the
    candidate left of the joiner ends before the one right of it
    starts. *)
Theorem ne_counts_within_entity E doc a b l log candidates log' :
  ne_counts E doc (Span a b l) log = (Ok candidates, log') ->
  List.Forall (fun c => label c = Some "count" /\ a <= start c /\ end_ c <= b)
              candidates
  /\ ForallOrdPairs (fun c1 c2 => end_ c1 < start c2) candidates
  /\ length candidates <= 2.
Proof.
  unfold ne_counts. cbn [label].
  destruct (match l with Some l0 => _ | None => false end);
    [|intros [= <- _]; split; [constructor | split; [constructor | cbn; lia]]].
  py_unfold.
  destruct (is_valid_count _ (span_text doc (Span a b l)) log) as [[[|]|e] l1];
    [| |discriminate].
  { intros [= <- _]. split; [|split].
    - apply List.Forall_cons; [cbn; split; [reflexivity | lia] | apply List.Forall_nil].
    - apply FOP_cons; [apply List.Forall_nil | apply FOP_nil].
    - cbn. lia. }
  destruct (finditer false joiner_pattern _) as [|[j0 j1] [|]] eqn:Hfind;
    try (intros [= <- _]; split; [constructor | split; [constructor | cbn; lia]]).
  pose proof (joiner_within doc a b l j0 j1 Hfind) as Hwithin.
  pose proof (joiner_sides doc a b l j0 j1 Hfind) as Hsides.
  cbn [start end_]. unfold AnnoSpan_init.
  destruct (a + j0 <? a); [discriminate|].
  destruct (b <? a + j1); [discriminate|].
  destruct (is_valid_count _ (span_text doc (Span a (a + j0) None)) l1)
    as [[v1|e] l2]; [|discriminate].
  destruct (is_valid_count _ (span_text doc (Span (a + j1) b None)) l2)
    as [[v2|e] l3]; [|discriminate].
  intros [= <- _].
  destruct v1, v2; cbn [app]; (split; [|split]).
  all: try (cbn [length]; lia).
  all: try (repeat (apply List.Forall_cons;
                    [cbn; split; [reflexivity | lia]|]);
            apply List.Forall_nil).
  all: repeat (apply FOP_cons;
               [repeat (apply List.Forall_cons; [cbn; lia|]); apply List.Forall_nil|]);
       apply FOP_nil.
Qed.

Lemma ne_counts_within_entity_witness :
  ForallOrdPairs (fun c1 c2 => end_ c1 < start c2)
    [SpanGroup [Span 8 9 None] (Some "count");
     SpanGroup [Span 14 16 None] (Some "count")].
Proof.
  apply (ne_counts_within_entity example_externals range_doc 8 16 (Some "CARDINAL") []
           [SpanGroup [Span 8 9 None] (Some "count");
            SpanGroup [Span 14 16 None] (Some "count")]
           [(INFO, "Cannot parse count string: 5 and 10")]).
  vm_compute. reflexivity.
Defined.

(** ** When validation raises *)

(** X4. [is_valid_count] raises in two cases only: [IndexError] on the
    empty string, and [OverflowError] when the string does not begin with
    the character 0 and the parsed value is an infinite float, which
    [int()] refuses and the [except] clause does not catch. *)
Theorem is_valid_count_raises parse s e :
  fst (run (is_valid_count parse s)) = Raise e <->
  (s = EmptyString /\ e = IndexError)
  \/ (s <> EmptyString /\ begins_with_zero s = false
      /\ e = OverflowError /\ exists negative, parse s = PyFloat (Inf negative)).
Proof.
  unfold run. rewrite is_valid_count_run.
  destruct s as [|c s']; cbn [fst begins_with_zero].
  - split.
    + intros [= <-]. left. auto.
    + intros [[_ ->]|[H _]]; [reflexivity | congruence].
  - destruct (Ascii.eqb c "0"); cbn [fst].
    { split; [discriminate|]. intros [[H _]|(_ & H & _)]; discriminate. }
    destruct (parse (String c s')) as [|z|[q| |negative]]; cbn [fst].
    + split; [discriminate|]. intros [[H _]|(_ & _ & _ & b & H)]; discriminate.
    + split; [discriminate|]. intros [[H _]|(_ & _ & _ & b & H)]; discriminate.
    + destruct (Qeq_bool _ q); cbn [fst];
        (split; [discriminate|]; intros [[H _]|(_ & _ & _ & b & H)]; discriminate).
    + split; [discriminate|]. intros [[H _]|(_ & _ & _ & b & H)]; discriminate.
    + split.
      * intros [= <-]. right. repeat split; [discriminate | eauto].
      * intros [[H _]|(_ & _ & -> & _)]; [discriminate | reflexivity].
Qed.

(** X5. [is_valid_count] keeps the log and appends at most one record to
    it; it appends one, and then returns [False], exactly when the string
    is non-empty, does not begin with the character 0, and the parsed
    value is [None] or not a number. *)
Theorem is_valid_count_logging parse s log :
  exists extra,
    snd (is_valid_count parse s log) = log ++ extra
    /\ (extra = []
        \/ (extra = [(INFO, ("Cannot parse count string: " ++ s)%string)]
            /\ fst (is_valid_count parse s log) = Ok false))
    /\ (extra <> [] <->
        s <> EmptyString /\ begins_with_zero s = false
        /\ (parse s = PyNone \/ parse s = PyFloat NaN)).
Proof.
  rewrite is_valid_count_run.
  destruct s as [|c s']; cbn [begins_with_zero].
  { exists []. rewrite app_nil_r. split; [reflexivity|]. split; [now left|].
    split; [congruence | intros [H _]; congruence]. }
  destruct (Ascii.eqb c "0").
  { exists []. rewrite app_nil_r. split; [reflexivity|]. split; [now left|].
    split; [congruence | intros (_ & H & _); discriminate]. }
  destruct (parse (String c s')) as [|z|[q| |negative]].
  - eexists. split; [reflexivity|]. split; [right; split; reflexivity|].
    split; [intros _; repeat split; [discriminate | now left] | discriminate].
  - exists []. rewrite app_nil_r. split; [reflexivity|]. split; [now left|].
    split; [congruence | intros (_ & _ & [H|H]); discriminate].
  - exists []. rewrite app_nil_r.
    split; [destruct (Qeq_bool _ q); reflexivity|]. split; [now left|].
    split; [congruence | intros (_ & _ & [H|H]); discriminate].
  - eexists. split; [reflexivity|]. split; [right; split; reflexivity|].
    split; [intros _; repeat split; [discriminate | now right] | discriminate].
  - exists []. rewrite app_nil_r. split; [reflexivity|]. split; [now left|].
    split; [congruence | intros (_ & _ & [H|H]); discriminate].
Qed.

(** ** An empty side of a joiner *)

Lemma mapM_py_raises {A B} (f : A -> Py B) xs x :
  In x xs -> (forall log, exists e, fst (f x log) = Raise e) ->
  forall log, exists e, fst (mapM_py f xs log) = Raise e.
Proof.
  intros Hx Hraise. induction xs as [|y xs IH]; [destruct Hx|].
  intros log. cbn [mapM_py]. py_unfold.
  destruct (f y log) as [[b|e] l1] eqn:Hy.
  - destruct Hx as [->|Hx].
    + destruct (Hraise log) as [e He]. rewrite Hy in He. discriminate.
    + destruct (IH Hx l1) as [e He].
      destruct (mapM_py f xs l1) as [[bs|e'] l2]; [discriminate | eauto].
  - eauto.
Qed.

(** X3. When the text of a QUANTITY or CARDINAL entity fails validation
    and its single joiner stands at its very beginning, the text left of
    the joiner is empty: validating it raises [IndexError] out of the loop
    body, and [annotate] ends in an exception instead of a result. *)
Theorem annotate_aborts_on_empty_side E doc a b l j1 :
  In (a, b, l) (spacy_nes doc) ->
  str_in l ["QUANTITY"; "CARDINAL"] = true ->
  fst (run (is_valid_count (parse_spelled_number E)
              (span_text doc (Span a b (Some l))))) = Ok false ->
  finditer false joiner_pattern (span_text doc (Span a b (Some l))) = [(0, j1)] ->
  fst (run (ne_counts E doc (Span a b (Some l)))) = Raise IndexError
  /\ exists e, fst (run (annotate E doc)) = Raise e.
Proof.
  intros Hin Hl Hinvalid Hfind.
  assert (Hne : fst (run (ne_counts E doc (Span a b (Some l)))) = Raise IndexError).
  { pose proof (joiner_within doc a b (Some l) 0 j1 Hfind) as Hwithin.
    unfold run, ne_counts. cbn [label]. rewrite Hl. py_unfold.
    pose proof (is_valid_count_fst (parse_spelled_number E)
                  (span_text doc (Span a b (Some l))) []) as H0.
    destruct (is_valid_count _ (span_text doc (Span a b (Some l))) []) as [r0 l0].
    cbn [fst] in H0. rewrite Hinvalid in H0. subst r0.
    rewrite Hfind. cbn [start end_]. unfold AnnoSpan_init.
    destruct (Nat.ltb_spec (a + 0) a); [lia|].
    destruct (Nat.ltb_spec b (a + j1)); [lia|].
    rewrite is_valid_count_run.
    unfold span_text, text_of, slice. cbn [start end_].
    replace (a + 0 - a) with 0 by lia. rewrite substring_none. reflexivity. }
  split; [exact Hne|].
  assert (Hcands : exists e, fst (count_candidates E doc []) = Raise e).
  { unfold count_candidates. py_unfold.
    destruct (mapM_py_raises (ne_counts E doc) (map ne_span (spacy_nes doc))
                (Span a b (Some l))) with (log := @nil log_record) as [e He].
    - apply in_map_iff. exists (a, b, l). auto.
    - intros log. exists IndexError. now rewrite ne_counts_fst.
    - destruct (mapM_py _ _ []) as [[gs|e'] l1]; [discriminate|].
      exists e'. reflexivity. }
  destruct Hcands as [e He].
  exists e. unfold run, annotate, annotated_counts. py_unfold.
  destruct (count_candidates E doc []) as [[counts|e'] l1]; [discriminate|].
  cbn [fst] in *. congruence.
Qed.

Lemma annotate_aborts_on_empty_side_witness :
  finditer false joiner_pattern
    (span_text leading_joiner_doc (Span 0 6 (Some "CARDINAL"))) = [(0, 5)]
  /\ fst (run (ne_counts example_externals leading_joiner_doc
                  (Span 0 6 (Some "CARDINAL")))) = Raise IndexError
  /\ exists e, fst (run (annotate example_externals leading_joiner_doc)) = Raise e.
Proof.
  split; [reflexivity|].
  apply (annotate_aborts_on_empty_side example_externals leading_joiner_doc
           0 6 "CARDINAL" 5).
  - left. reflexivity.
  - reflexivity.
  - vm_compute. reflexivity.
  - reflexivity.
Defined.

(** ** Sentences *)

Lemma grouped_spans_contained self candidates c :
  In c (flat_map snd (group_spans_by_containing_span self candidates false)) ->
  exists container, In container self /\ contains container c = true.
Proof.
  intros Hc. apply in_flat_map in Hc as (g & Hg & Hc). destruct g as [container group].
  unfold group_spans_by_containing_span in Hg.
  apply in_map_iff in Hg as (s & Heq & Hs).
  inversion Heq; subst. cbn [snd] in Hc.
  apply filter_In in Hc as [_ Hc]. eauto.
Qed.

(** X7. Every span [annotate] returns lies within one span of the
    sentence tier: matches that reach across sentences are dropped before
    the selection. *)
Theorem returned_spans_within_sentence E doc cs :
  fst (run (annotate E doc)) = Ok cs ->
  forall c, In c cs ->
    exists sentence,
      In sentence (spacy_sentences doc)
      /\ start sentence <= cs_start c /\ cs_end c <= end_ sentence.
Proof.
  unfold run. destruct (annotate E doc []) as [r log'] eqn:Hrun. cbn [fst]. intros ->.
  intros c Hc.
  apply annotate_inv in Hrun as (annotated & l1 & Hsel & Hspans).
  destruct (count_spans_of_inv _ _ _ _ _ _ _ Hspans Hc)
    as (m & group & l & l' & Hm & Hfor & Hg).
  apply annotated_counts_inv in Hsel as (counts & l2 & singular & _ & ->).
  apply optimal_span_set_incl in Hm.
  apply grouped_spans_contained in Hm as (sentence & Hsentence & Hcontains).
  unfold contains in Hcontains.
  apply andb_true_iff in Hcontains as [Hs He].
  apply Nat.leb_le in Hs, He.
  exists sentence. split; [exact Hsentence|].
  apply count_spans_for_inv in Hfor as (count & _ & Hcases).
  destruct Hcases as [[_ ->]|(r & rs & u & us & Hrange & _ & ->)].
  - destruct Hg as [<-|[]]. cbn. lia.
  - assert (Hr : start m <= start r /\ end_ r <= end_ m).
    { apply roles_within with (k := "range"). rewrite Hrange. now left. }
    destruct Hg as [<-|[<-|[]]]; cbn [CountSpan_init cs_start cs_end]; lia.
Qed.

Lemma returned_spans_within_sentence_witness :
  fst (run (annotate example_externals deaths_doc)) = Ok [deaths_span]
  /\ exists sentence,
      In sentence (spacy_sentences deaths_doc)
      /\ start sentence <= cs_start deaths_span
      /\ cs_end deaths_span <= end_ sentence.
Proof.
  assert (Hrun : fst (run (annotate example_externals deaths_doc)) = Ok [deaths_span])
    by (vm_compute; reflexivity).
  split; [exact Hrun|].
  apply (returned_spans_within_sentence example_externals deaths_doc _ Hrun deaths_span).
  left. reflexivity.
Defined.

(** ** Documents without counts *)

Lemma flat_map_nothing {A B} (f : A -> list B) l :
  (forall x, In x l -> f x = []) -> flat_map f l = [].
Proof.
  induction l as [|x l IH]; cbn; intros H; [reflexivity|].
  rewrite (H x) by now left. apply IH. intros y Hy. apply H. now right.
Qed.

Lemma mapM_py_nothing {A B} (f : A -> Py (list B)) xs log :
  (forall x l, In x xs -> f x l = (Ok [], l)) ->
  exists groups, mapM_py f xs log = (Ok groups, log) /\ concat groups = [].
Proof.
  intros H. induction xs as [|x xs IH]; cbn [mapM_py]; py_unfold.
  - exists []. split; reflexivity.
  - destruct IH as (groups & Hrun & Hnil); [intros; apply H; now right|].
    rewrite (H x log (or_introl eq_refl)), Hrun.
    exists ([] :: groups). split; [reflexivity | exact Hnil].
Qed.

Lemma nothing_grouped self partial :
  flat_map snd (group_spans_by_containing_span self [] partial) = [].
Proof.
  apply flat_map_nothing. intros g Hg.
  unfold group_spans_by_containing_span in Hg.
  apply in_map_iff in Hg as (s & <- & _). reflexivity.
Qed.

Lemma nothing_nearby self max_dist : with_nearby_spans_from self [] max_dist = [].
Proof. apply flat_map_nothing. reflexivity. Qed.

Lemma nothing_follows gap first :
  follows gap [first; []] = [].
Proof.
  unfold follows. cbn [chains map].
  rewrite flat_map_nothing; [reflexivity|]. reflexivity.
Qed.

Lemma nothing_optimal weight : optimal_span_set weight [] = [].
Proof. reflexivity. Qed.

(** X8. When no entity yields a count candidate and no token is a
    singular case report, [annotate] raises nothing and returns no span,
    whatever case, death or hospitalization words the document holds. *)
Theorem no_counts_no_spans E doc :
  fst (run (count_candidates E doc)) = Ok [] ->
  singular_case_tokens doc = [] ->
  fst (run (annotate E doc)) = Ok [].
Proof.
  unfold run. intros Hcounts Htokens.
  unfold annotate, annotated_counts. py_unfold.
  destruct (count_candidates E doc []) as [r l1]. cbn [fst] in Hcounts. subst r.
  destruct (mapM_py_nothing (filter_by_sense E)
              (group_spans_by_containing_span (spacy_sentences doc)
                 (singular_case_tokens doc) false) l1) as (groups & Hrun & Hnil).
  { intros [sentence group] l Hg. rewrite Htokens in Hg.
    unfold group_spans_by_containing_span in Hg.
    apply in_map_iff in Hg as (s & Heq & _). inversion Heq; subst. reflexivity. }
  unfold filtered_singular_case_spans. py_unfold. rewrite Hrun, Hnil.
  assert (Htier : counts_tier_of E doc [] = []).
  { unfold counts_tier_of, ranges_of, ra_follows.
    change (follows (follows_max_gap E) [[]; ?x]) with (@nil AnnoSpan).
    reflexivity. }
  assert (Hdescr : count_descriptions_of E doc [] = []).
  { unfold count_descriptions_of.
    assert (Hfold : forall rest,
      fold_left (fun count_descriptions group =>
                   count_descriptions
                   ++ with_nearby_spans_from count_descriptions
                        (search_lemmas doc (split_on "|" group) (head (split_on "|" group)))
                        (nearby_max_dist E))
                rest [] = []).
    { induction rest as [|g gs IH]; [reflexivity | exact IH]. }
    apply Hfold. }
  assert (Hsingular : singular_case_descriptions_of E doc [] = []).
  { unfold singular_case_descriptions_of. apply flat_map_nothing.
    intros g Hg. unfold group_spans_by_containing_span in Hg.
    apply in_map_iff in Hg as (s & <- & _). reflexivity. }
  assert (Hall : all_potential_counts_of E doc [] [] = []).
  { unfold all_potential_counts_of. rewrite Hdescr, nothing_nearby.
    unfold ra_follows. rewrite nothing_follows. reflexivity. }
  rewrite Htier, Hsingular, Hall.
  unfold single_sentence_counts_of. rewrite nothing_grouped.
  reflexivity.
Qed.

Lemma no_counts_no_spans_witness :
  singular_case_tokens no_count_doc = []
  /\ fst (run (annotate example_externals no_count_doc)) = Ok [].
Proof.
  split; [reflexivity|].
  apply (no_counts_no_spans example_externals no_count_doc); reflexivity.
Defined.

(** ** The counts that are reported *)

Lemma ne_counts_accepted E doc a b l log candidates log' :
  ne_counts E doc (Span a b l) log = (Ok candidates, log') ->
  List.Forall (fun s => exists x y lbl,
                 s = SpanGroup [Span x y lbl] (Some "count")
                 /\ accepted_count E doc (Span x y lbl))
              candidates.
Proof.
  unfold ne_counts, accepted_count. cbn [label].
  destruct (match l with Some l0 => _ | None => false end);
    [|intros [= <- _]; constructor].
  py_unfold.
  pose proof (is_valid_count_fst (parse_spelled_number E) (span_text doc (Span a b l)) log)
    as H0.
  destruct (is_valid_count _ (span_text doc (Span a b l)) log) as [[[|]|e] l1];
    [| |discriminate].
  { intros [= <- _]. constructor; [|constructor]. exists a, b, l. auto. }
  destruct (finditer false joiner_pattern _) as [|[j0 j1] [|]];
    try (intros [= <- _]; constructor).
  cbn [start end_]. unfold AnnoSpan_init.
  destruct (a + j0 <? a); [discriminate|].
  destruct (b <? a + j1); [discriminate|].
  pose proof (is_valid_count_fst (parse_spelled_number E)
                (span_text doc (Span a (a + j0) None)) l1) as H1.
  destruct (is_valid_count _ (span_text doc (Span a (a + j0) None)) l1)
    as [[v1|e] l2]; [|discriminate].
  pose proof (is_valid_count_fst (parse_spelled_number E)
                (span_text doc (Span (a + j1) b None)) l2) as H2.
  destruct (is_valid_count _ (span_text doc (Span (a + j1) b None)) l2)
    as [[v2|e] l3]; [|discriminate].
  intros [= <- _]. apply List.Forall_app. split.
  - destruct v1; constructor; [|constructor]. eexists _, _, _. split; [reflexivity | auto].
  - destruct v2; constructor; [|constructor]. eexists _, _, _. split; [reflexivity | auto].
Qed.

Theorem selected_counts_accepted E doc log annotated log' :
  annotated_counts E doc log = (Ok annotated, log') ->
  forall m c,
    In m annotated -> In c (roles_at (groupdict m) "count") ->
    fst (run (is_valid_count (parse_spelled_number E) (span_text doc c))) = Ok true.
Proof.
  intros Hrun.
  apply annotated_counts_inv in Hrun as (counts & l1 & singular & Hcounts & ->).
  set (P := fun s => forall c, In c (roles_at (groupdict s) "count") -> accepted_count E doc c).
  assert (Hleaf : forall a b l, P (Span a b l)).
  { intros a b l c Hc. rewrite roles_at_leaf in Hc. destruct Hc. }
  assert (Hgroup : forall base_spans l,
            l <> Some "count" -> List.Forall P base_spans -> P (SpanGroup base_spans l)).
  { intros base_spans l Hl Hbase c Hc.
    apply in_roles_at_group in Hc as [(b & Hb & Hc)|[-> _]]; [|congruence].
    rewrite List.Forall_forall in Hbase. eapply Hbase; eauto. }
  assert (Hcands : List.Forall P counts).
  { unfold count_candidates in Hcounts. py_unfold.
    destruct (mapM_py _ _ log) as [[groups|e] l2] eqn:Hmap; [|discriminate].
    injection Hcounts as <- _. apply mapM_py_inv in Hmap.
    apply List.Forall_forall. intros s Hs.
    destruct (in_concat_Forall2 _ _ _ _ Hmap Hs)
      as (ne & group & Hne & (l & l' & Hf) & Hg).
    apply in_map_iff in Hne as ([[a b] lbl] & <- & _).
    apply ne_counts_accepted in Hf. rewrite List.Forall_forall in Hf.
    destruct (Hf s Hg) as (x & y & lx & -> & Hacc).
    intros c Hc.
    apply in_roles_at_group in Hc as [(z & [<-|[]] & Hc)|[_ ->]].
    - rewrite roles_at_leaf in Hc. destruct Hc.
    - exact Hacc. }
  assert (Hall : List.Forall P
            (optimal_span_set (prefer_num_spans E)
               (single_sentence_counts_of doc
                  (all_potential_counts_of E doc (counts_tier_of E doc counts)
                     (singular_case_descriptions_of E doc singular))))).
  { apply selected_preserved; [exact Hleaf | exact Hgroup|].
    eapply incl_Forall; [apply counts_tier_incl|].
    apply List.Forall_app. split; [|exact Hcands].
    unfold ranges_of, ra_follows.
    apply follows_preserves; [exact Hgroup|].
    constructor; [exact Hcands|]. constructor; [|constructor].
    apply ra_label_preserves; [exact Hgroup | discriminate|].
    apply follows_preserves; [exact Hgroup|].
    constructor; [|constructor; [exact Hcands | constructor]].
    apply search_regex_preserved; [exact Hleaf | exact Hgroup | discriminate]. }
  intros m c Hm Hc. rewrite List.Forall_forall in Hall. exact (Hall m Hm c Hc).
Qed.

Lemma accepted_bound parse s :
  fst (run (is_valid_count parse s)) = Ok true ->
  exists z, integer_value (parse s) = Some z /\ (z <= 1000000000)%Z.
Proof.
  unfold run. rewrite is_valid_count_run. destruct s as [|c s']; [discriminate|].
  destruct (Ascii.eqb c "0"); [discriminate|].
  destruct (parse (String c s')) as [|z|[q| |b]]; cbn; try discriminate.
  - destruct (Z.ltb_spec 1000000000 z); cbn; [discriminate|].
    intros _. exists z. split; [reflexivity | lia].
  - destruct (Qeq_bool (inject_Z (Qtrunc q)) q) eqn:Heq; cbn; [|discriminate].
    intros [= Hle]. exists (Qtrunc q). split; [reflexivity|].
    now apply (Qtrunc_exact q Heq).
Qed.

(** X6. Every span [annotate] returns carries a count that is equal to an
    integer of at most 1,000,000,000: it is 1, or it is parsed from a text
    that [is_valid_count] accepted. *)
Theorem returned_counts_bounded E doc cs :
  fst (run (annotate E doc)) = Ok cs ->
  forall c, In c cs ->
    exists n z,
      cs_metadata c !! "count" = Some (ONum n)
      /\ integer_value n = Some z /\ (z <= 1000000000)%Z.
Proof.
  unfold run. destruct (annotate E doc []) as [r log'] eqn:Hrun. cbn [fst]. intros ->.
  intros c Hc.
  apply annotate_inv in Hrun as (annotated & l1 & Hsel & Hspans).
  destruct (count_spans_of_inv _ _ _ _ _ _ _ Hspans Hc)
    as (m & group & l & l' & Hm & Hfor & Hg).
  pose proof (selected_counts_accepted _ _ _ _ _ Hsel m) as Hacc.
  apply count_spans_for_inv in Hfor as (count & Hcount & Hcases).
  assert (Hcount_ok : exists z, integer_value count = Some z /\ (z <= 1000000000)%Z).
  { destruct (roles_at (groupdict m) "count") as [|first found] eqn:Hroles.
    - subst count. exists 1%Z. split; [reflexivity | lia].
    - subst count. apply accepted_bound, Hacc; [exact Hm|]. now left. }
  destruct Hcases as [[_ ->]|(r & rs & u & us & Hrange & Hupper & ->)].
  - destruct Hg as [<-|[]]. destruct Hcount_ok as [z Hz]. exists count, z.
    split; [reflexivity | exact Hz].
  - destruct Hg as [<-|[<-|[]]].
    + destruct Hcount_ok as [z Hz]. exists count, z. split; [reflexivity | exact Hz].
    + assert (Hu : In u (roles_at (groupdict m) "count")).
      { apply roles_nested with (k := "range") (r := r).
        - rewrite Hrange. now left.
        - rewrite Hupper. now left. }
      destruct (accepted_bound _ _ (Hacc u Hm Hu)) as [z Hz].
      eexists _, z. split; [reflexivity | exact Hz].
Qed.

Lemma returned_counts_bounded_witness :
  fst (run (annotate example_externals deaths_doc)) = Ok [deaths_span]
  /\ exists n z,
      cs_metadata deaths_span !! "count" = Some (ONum n)
      /\ integer_value n = Some z /\ (z <= 1000000000)%Z.
Proof.
  assert (Hrun : fst (run (annotate example_externals deaths_doc)) = Ok [deaths_span])
    by (vm_compute; reflexivity).
  split; [exact Hrun|].
  apply (returned_counts_bounded example_externals deaths_doc _ Hrun deaths_span).
  left. reflexivity.
Defined.

(** ** The serialized text *)

(** X9. Every span [annotate] returns comes from a selected match.  Either
    it has the extent of the match, and the text [to_dict] gives is the
    document text of that extent; or it has the extent of the first range
    of the match, and the text is the document text of the first count of
    that range, the upper count, which lies inside the span. *)
Theorem serialized_text_inside_span E doc cs :
  fst (run (annotate E doc)) = Ok cs ->
  forall c, In c cs ->
    exists annotated m,
      fst (run (annotated_counts E doc)) = Ok annotated
      /\ In m annotated
      /\ ((cs_start c = start m /\ cs_end c = end_ m
           /\ to_dict doc c !! "text"
              = Some (OStr (slice (cs_start c) (cs_end c) (text doc))))
          \/ exists range_match upper,
              head (roles_at (groupdict m) "range") = Some range_match
              /\ head (roles_at (groupdict range_match) "count") = Some upper
              /\ cs_start c = start range_match /\ cs_end c = end_ range_match
              /\ to_dict doc c !! "text"
                 = Some (OStr (slice (start upper) (end_ upper) (text doc)))
              /\ cs_start c <= start upper /\ end_ upper <= cs_end c).
Proof.
  unfold run. destruct (annotate E doc []) as [r log'] eqn:Hrun. cbn [fst]. intros ->.
  intros c Hc.
  apply annotate_inv in Hrun as (annotated & l1 & Hsel & Hspans).
  destruct (count_spans_of_inv _ _ _ _ _ _ _ Hspans Hc)
    as (m & group & l & l' & Hm & Hfor & Hg).
  exists annotated, m. rewrite Hsel. split; [reflexivity|]. split; [exact Hm|].
  apply count_spans_for_inv in Hfor as (count & _ & Hcases).
  destruct Hcases as [[_ ->]|(r & rs & u & us & Hrange & Hupper & ->)].
  - destruct Hg as [<-|[]]. left.
    split; [reflexivity|]. split; [reflexivity|].
    now destruct (to_dict_lookups doc
                    (CountSpan_init doc m
                       (count_metadata (span_text doc m)
                          (sorted (elements (matching_attributes_of (groupdict m))))
                          count)) _ _ _ eq_refl) as (_ & _ & _ & Ht & _).
  - destruct Hg as [<-|[<-|[]]].
    + left. split; [reflexivity|]. split; [reflexivity|].
      now destruct (to_dict_lookups doc
                      (CountSpan_init doc m
                         (count_metadata (span_text doc m)
                            (sorted (elements (matching_attributes_of (groupdict m))
                                     ++ ["min"]))
                            count)) _ _ _ eq_refl) as (_ & _ & _ & Ht & _).
    + right. exists r, u. rewrite Hrange, Hupper.
      assert (Hu : start r <= start u /\ end_ u <= end_ r).
      { apply roles_within with (k := "count"). rewrite Hupper. now left. }
      split; [reflexivity|]. split; [reflexivity|].
      split; [reflexivity|]. split; [reflexivity|].
      split; [|exact Hu].
      now destruct (to_dict_lookups doc
                      (CountSpan_init doc r
                         (count_metadata (span_text doc u)
                            (sorted (elements (matching_attributes_of (groupdict m))
                                     ++ ["max"]))
                            (parse_spelled_number E (span_text doc u)))) _ _ _ eq_refl)
        as (_ & _ & _ & Ht & _).
Qed.

(** For "at least 5 to 10 cases" the span of the range covers "to 10" and
    its text is "10". *)
Lemma serialized_text_inside_span_witness :
  fst (run (annotate example_externals least_doc)) = Ok [least_min_span; least_max_span]
  /\ cs_label least_max_span = "to 10"
  /\ to_dict least_doc least_max_span !! "text" = Some (OStr "10")
  /\ exists annotated m,
      fst (run (annotated_counts example_externals least_doc)) = Ok annotated
      /\ In m annotated
      /\ ((cs_start least_max_span = start m /\ cs_end least_max_span = end_ m
           /\ to_dict least_doc least_max_span !! "text"
              = Some (OStr (slice (cs_start least_max_span) (cs_end least_max_span)
                              (text least_doc))))
          \/ exists range_match upper,
              head (roles_at (groupdict m) "range") = Some range_match
              /\ head (roles_at (groupdict range_match) "count") = Some upper
              /\ cs_start least_max_span = start range_match
              /\ cs_end least_max_span = end_ range_match
              /\ to_dict least_doc least_max_span !! "text"
                 = Some (OStr (slice (start upper) (end_ upper) (text least_doc)))
              /\ cs_start least_max_span <= start upper
              /\ end_ upper <= cs_end least_max_span).
Proof.
  assert (Hrun : fst (run (annotate example_externals least_doc))
                 = Ok [least_min_span; least_max_span])
    by (vm_compute; reflexivity).
  split; [exact Hrun|]. split; [reflexivity|]. split; [reflexivity|].
  apply (serialized_text_inside_span example_externals least_doc _ Hrun least_max_span).
  right. left. reflexivity.
Defined.

(** ** What is logged *)

Lemma logs_failures_ret {A} (a : A) : logs_failures (mret a).
Proof. intros log. exists []. split; [symmetry; apply app_nil_r | constructor]. Qed.

Lemma logs_failures_lift {A} (r : result A) : logs_failures (lift r).
Proof. intros log. exists []. split; [symmetry; apply app_nil_r | constructor]. Qed.

Lemma logs_failures_bind {A B} (m : Py A) (k : A -> Py B) :
  logs_failures m -> (forall a, logs_failures (k a)) -> logs_failures (m ≫= k).
Proof.
  intros Hm Hk log. py_unfold.
  destruct (Hm log) as (e1 & H1 & F1).
  destruct (m log) as [[a|e] l1]; cbn [snd] in H1; subst l1.
  - destruct (Hk a (log ++ e1)) as (e2 & H2 & F2).
    exists (e1 ++ e2). rewrite H2, app_assoc. split; [reflexivity|].
    apply List.Forall_app. auto.
  - exists e1. auto.
Qed.

Lemma logs_failures_mapM {A B} (f : A -> Py B) xs :
  (forall x, logs_failures (f x)) -> logs_failures (mapM_py f xs).
Proof.
  intros Hf. induction xs as [|x xs IH]; cbn [mapM_py].
  - apply logs_failures_ret.
  - apply logs_failures_bind; [apply Hf|]. intros y.
    apply logs_failures_bind; [exact IH|]. intros ys. apply logs_failures_ret.
Qed.

Lemma logs_failures_is_valid_count parse s : logs_failures (is_valid_count parse s).
Proof.
  intros log. rewrite is_valid_count_run.
  assert (Hquiet : forall r : result bool,
            exists extra, snd (r, log) = log ++ extra /\ List.Forall parse_failure extra).
  { intros r. exists []. split; [symmetry; apply app_nil_r | constructor]. }
  assert (Hlogged : exists extra,
            snd (@Ok bool false,
                 log ++ [(INFO, ("Cannot parse count string: " ++ s)%string)])
            = log ++ extra /\ List.Forall parse_failure extra).
  { eexists. split; [reflexivity|]. constructor; [|constructor]. now exists s. }
  destruct s as [|c s']; [apply Hquiet|].
  destruct (Ascii.eqb c "0"); [apply Hquiet|].
  destruct (parse (String c s')) as [|z|[q| |b]]; auto.
  destruct (Qeq_bool _ q); apply Hquiet.
Qed.

(** X10. [annotate] keeps the log it is started with and appends nothing
    but INFO records of count strings that could not be parsed, also when
    it ends in an exception. *)
Theorem annotate_logs_parse_failures E doc log :
  exists extra,
    snd (annotate E doc log) = log ++ extra
    /\ List.Forall (fun r => exists s,
                      r = (INFO, ("Cannot parse count string: " ++ s)%string))
                   extra.
Proof.
  revert log. change (logs_failures (annotate E doc)).
  unfold annotate. apply logs_failures_bind.
  - unfold annotated_counts. apply logs_failures_bind.
    + unfold count_candidates. apply logs_failures_bind; [|intros; apply logs_failures_ret].
      apply logs_failures_mapM. intros ne. unfold ne_counts.
      destruct (match label ne with Some l => _ | None => false end);
        [|apply logs_failures_ret].
      apply logs_failures_bind; [apply logs_failures_is_valid_count|].
      intros [|]; [apply logs_failures_ret|].
      destruct (finditer false joiner_pattern (span_text doc ne)) as [|[j0 j1] [|]];
        try apply logs_failures_ret.
      apply logs_failures_bind; [apply logs_failures_lift|]. intros range_start.
      apply logs_failures_bind; [apply logs_failures_lift|]. intros range_end.
      apply logs_failures_bind; [apply logs_failures_is_valid_count|]. intros v1.
      apply logs_failures_bind; [apply logs_failures_is_valid_count|]. intros v2.
      apply logs_failures_ret.
    + intros counts. apply logs_failures_bind; [|intros; apply logs_failures_ret].
      unfold filtered_singular_case_spans.
      apply logs_failures_bind; [|intros; apply logs_failures_ret].
      apply logs_failures_mapM. intros [sentence group]. unfold filter_by_sense.
      destruct (length group =? 0); [apply logs_failures_ret|].
      apply logs_failures_bind; [apply logs_failures_lift|]. intros x.
      apply logs_failures_bind; [apply logs_failures_lift|]. intros y.
      destruct (Qle_bool x y); apply logs_failures_ret.
  - intros annotated. unfold count_spans_of.
    apply logs_failures_bind; [|intros; apply logs_failures_ret].
    apply logs_failures_mapM. intros m. unfold count_spans_for.
    apply logs_failures_bind.
    + destruct (groupdict m !! "count");
        [apply logs_failures_bind; [apply logs_failures_lift | intros; apply logs_failures_ret]
        |apply logs_failures_ret].
    + intros count. destruct (groupdict m !! "range"); [|apply logs_failures_ret].
      apply logs_failures_bind; [apply logs_failures_lift|]. intros r.
      apply logs_failures_bind; [apply logs_failures_lift|]. intros u.
      apply logs_failures_bind; [apply logs_failures_lift|]. intros x.
      apply logs_failures_ret.
Qed.

(** ** The species importer, further *)

Module ImportFacts.
Import ImportSpecies ImportNotions.

Lemma filter_removed {A} (f : A -> bool) l :
  List.filter f (List.filter (fun x => negb (f x)) l) = [].
Proof.
  induction l as [|x l IH]; cbn; [reflexivity|].
  destruct (f x) eqn:Hx; cbn; [exact IH|]. now rewrite Hx.
Qed.

Lemma no_version_after_removal t : select_itis_version (remove_previous t) = None.
Proof.
  unfold select_itis_version, remove_previous. cbn [metadata set_metadata].
  now rewrite (filter_removed (fun m : string * option string =>
                                 String.eqb (fst m) "itis_version")).
Qed.

(** The run that does not return early. *)
Lemma import_species_runs (drop_previous : bool) outside c :
  select_itis_version
    (if drop_previous then remove_previous (working c) else working c) = None ->
  connection (import_species drop_previous outside c)
  = {| working := imported outside
                    (if drop_previous then remove_previous (working c) else working c);
       committed := imported outside
                      (if drop_previous then remove_previous (working c) else working c);
       closed := true |}.
Proof.
  intros Hnone. unfold import_species, imported, source_of, new_entities, new_synonyms.
  destruct drop_previous; cbn [execute working] in *; rewrite Hnone; cbn [truthy];
    destruct (truthy_str (ITIS_DB_PATH outside)); reflexivity.
Qed.

Lemma version_row_found t v :
  In ("itis_version", v) (metadata t) -> truthy (select_itis_version t) = true.
Proof.
  intros Hin. unfold select_itis_version.
  destruct (List.filter _ _) as [|m rest] eqn:Hf; [|reflexivity].
  assert (Hm : In ("itis_version", v)
                  (List.filter (fun m => String.eqb (fst m) "itis_version") (metadata t))).
  { apply filter_In. split; [exact Hin | reflexivity]. }
  rewrite Hf in Hm. destruct Hm.
Qed.

Lemma version_row_cases t :
  select_itis_version t = None
  \/ exists v, In ("itis_version", v) (metadata t).
Proof.
  unfold select_itis_version.
  destruct (List.filter _ _) as [|m rest] eqn:Hf; [now left|]. right.
  assert (Hm : In m (m :: rest)) by now left.
  rewrite <- Hf in Hm. apply filter_In in Hm as [Hm Hyes].
  apply String.eqb_eq in Hyes. destruct m as [p v]. cbn in Hyes. subst p. eauto.
Qed.

Lemma early_return outside c v :
  In ("itis_version", v) (metadata (working c)) ->
  connection (import_species false outside c) = c.
Proof.
  intros Hin. unfold import_species.
  rewrite (version_row_found _ _ Hin). reflexivity.
Qed.

(** X11. Once [import_species] has run on a database, with or without
    [drop_previous], running it again without [drop_previous] on a new
    connection returns early and leaves the connection as it is. *)
Theorem second_run_changes_nothing (drop_previous : bool) outside outside' c :
  working c = committed c ->
  connection
    (import_species false outside'
       (connect (committed (connection (import_species drop_previous outside c)))))
  = connect (committed (connection (import_species drop_previous outside c))).
Proof.
  intros Hfresh.
  assert (Hrow : exists v,
            In ("itis_version", v)
               (metadata (committed (connection (import_species drop_previous outside c))))).
  { destruct drop_previous.
    - rewrite import_species_runs by apply no_version_after_removal.
      cbn [committed imported metadata]. eexists. apply in_app_iff. right. now left.
    - destruct (version_row_cases (working c)) as [Hnone|[v Hv]].
      + rewrite import_species_runs by exact Hnone.
        cbn [committed imported metadata]. eexists. apply in_app_iff. right. now left.
      + rewrite (early_return outside c v Hv). rewrite <- Hfresh. eauto. }
  destruct Hrow as [v Hv]. now apply early_return with (v := v).
Qed.

Lemma second_run_changes_nothing_witness :
  working (connect empty_tables) = committed (connect empty_tables)
  /\ connection
       (import_species false plant_outside
          (connect (committed (connection
                                 (import_species false plant_outside
                                    (connect empty_tables))))))
     = connect (committed (connection
                             (import_species false plant_outside (connect empty_tables)))).
Proof.
  split; [reflexivity|].
  apply (second_run_changes_nothing false plant_outside plant_outside
           (connect empty_tables)).
  reflexivity.
Defined.

Lemma new_entities_itis itis e : In e (new_entities itis) -> is_itis e = true.
Proof.
  unfold new_entities. intros He. apply in_map_iff in He as ([[[tsn name] r] k] & <- & _).
  reflexivity.
Qed.

Lemma filter_none {A} (f : A -> bool) l :
  (forall x, In x l -> f x = false) -> List.filter f l = [].
Proof.
  induction l as [|x l IH]; cbn; intros H; [reflexivity|].
  rewrite (H x) by now left. apply IH. intros y Hy. apply H. now right.
Qed.

Lemma filter_twice {A} (f : A -> bool) l :
  List.filter f (List.filter f l) = List.filter f l.
Proof.
  induction l as [|x l IH]; cbn; [reflexivity|].
  destruct (f x) eqn:Hx; cbn; [rewrite Hx, IH; reflexivity | exact IH].
Qed.

(** X12. [import_species] neither adds, removes nor reorders entities of
    a source other than ITIS, nor metadata rows of a property other than
    [itis_version], with or without [drop_previous]. *)
Theorem import_species_frame (drop_previous : bool) outside c :
  List.filter other_source
    (entities (working (connection (import_species drop_previous outside c))))
  = List.filter other_source (entities (working c))
  /\ List.filter other_property
       (metadata (working (connection (import_species drop_previous outside c))))
     = List.filter other_property (metadata (working c)).
Proof.
  assert (Hrun : forall t,
            List.filter other_source (entities (imported outside t))
            = List.filter other_source (entities t)
            /\ List.filter other_property (metadata (imported outside t))
               = List.filter other_property (metadata t)).
  { intros t. cbn [imported entities metadata]. rewrite !List.filter_app. split.
    - rewrite (filter_none other_source (new_entities _)); [apply app_nil_r|].
      intros e He. unfold other_source. now rewrite (new_entities_itis _ _ He).
    - cbn. apply app_nil_r. }
  destruct drop_previous.
  - rewrite import_species_runs by apply no_version_after_removal.
    cbn [working]. destruct (Hrun (remove_previous (working c))) as [-> ->].
    unfold remove_previous. cbn [entities metadata set_metadata set_entities set_synonyms].
    split; [apply (filter_twice other_source) | apply (filter_twice other_property)].
  - destruct (version_row_cases (working c)) as [Hnone|[v Hv]].
    + rewrite import_species_runs by exact Hnone. cbn [working]. apply Hrun.
    + rewrite (early_return outside c v Hv). split; reflexivity.
Qed.

(** *** The synonyms that are added *)

Lemma dedup_incl {A} (eqb : A -> A -> bool) l x : In x (dedup eqb l) -> In x l.
Proof.
  revert x. induction l as [|y l IH]; cbn; [tauto|].
  intros x [->|Hx]; [now left|]. right. apply filter_In in Hx as [Hx _]. auto.
Qed.

Lemma dedup_represents {A K} (eqb : A -> A -> bool) (key : A -> K) l x :
  (forall a b, eqb a b = true <-> key a = key b) ->
  In x l -> exists y, In y (dedup eqb l) /\ key y = key x.
Proof.
  intros Hkey. induction l as [|z l IH]; cbn; [tauto|].
  intros [->|Hx]; [exists x; auto|].
  destruct (IH Hx) as (y & Hy & Hyx).
  destruct (eqb z y) eqn:Hzy.
  - exists z. split; [now left|]. apply Hkey in Hzy. congruence.
  - exists y. split; [|exact Hyx]. right. apply filter_In. split; [exact Hy|].
    now rewrite Hzy.
Qed.

Lemma NoDup_map_filter {A K} (key : A -> K) (f : A -> bool) l :
  List.NoDup (map key l) -> List.NoDup (map key (List.filter f l)).
Proof.
  induction l as [|x l IH]; cbn; intros Hnd; [constructor|].
  inversion Hnd as [|? ? Hx Hnd']; subst.
  destruct (f x); cbn; [|auto].
  constructor; [|auto].
  intros Hin. apply Hx. apply in_map_iff in Hin as (y & Hy & Hin).
  apply filter_In in Hin as [Hin _]. rewrite <- Hy. now apply in_map.
Qed.

Lemma dedup_keys_distinct {A K} (eqb : A -> A -> bool) (key : A -> K) l :
  (forall a b, eqb a b = true <-> key a = key b) ->
  List.NoDup (map key (dedup eqb l)).
Proof.
  intros Hkey. induction l as [|x l IH]; cbn; constructor.
  - intros Hin. apply in_map_iff in Hin as (y & Hy & Hin).
    apply filter_In in Hin as [_ Hno]. apply negb_true_iff in Hno.
    symmetry in Hy. apply Hkey in Hy. congruence.
  - now apply NoDup_map_filter.
Qed.

Lemma name_eqb_eq a b : name_eqb a b = true <-> a = b.
Proof.
  destruct a as [t n], b as [t' n']. unfold name_eqb. cbn.
  rewrite andb_true_iff, Z.eqb_eq, String.eqb_eq. split; [intros [-> ->] | intros [= -> ->]]; auto.
Qed.

Lemma row_eqb_eq a b : row_eqb a b = true <-> a = b.
Proof.
  destruct a as [n r], b as [n' r']. unfold row_eqb. cbn [fst snd].
  rewrite andb_true_iff, name_eqb_eq, Z.eqb_eq.
  split; [intros [-> ->] | intros [= -> ->]]; auto.
Qed.

Lemma key_eqb_eq a b : key_eqb a b = true <-> fst a = fst b.
Proof.
  destruct a as [[s e] w], b as [[s' e'] w']. unfold key_eqb. cbn.
  rewrite andb_true_iff, !String.eqb_eq. split; [intros [-> ->] | intros [= -> ->]]; auto.
Qed.

Lemma fold_max_bounds lo hi w ws :
  (lo <= w <= hi)%Z -> List.Forall (fun x => (lo <= x <= hi)%Z) ws ->
  (lo <= fold_right Z.max w ws <= hi)%Z.
Proof.
  intros Hw. induction 1 as [|x xs Hx _ IH]; cbn; [exact Hw | lia].
Qed.

Lemma synonym_tuple_weight itis row :
  In row (map synonym_tuple (synonym_query itis)) -> (0 <= snd row <= 3)%Z.
Proof.
  intros Hrow. apply in_map_iff in Hrow as ([[tsn name] refs] & <- & Hq).
  apply dedup_incl in Hq. cbn.
  assert (0 <= refs)%Z.
  { apply in_app_iff in Hq as [Hq|Hq]; unfold names_with_refs in Hq;
      apply in_map_iff in Hq as (n & [= _ <-] & _); lia. }
  destruct (3 <=? refs)%Z eqn:H3; [lia|]. apply Z.leb_gt in H3. lia.
Qed.

Lemma name_is_synonym itis tsn name :
  In (tsn, name) (longnames itis) \/ In (tsn, name) (vernaculars itis) ->
  exists weight, In (name, ("tsn:" ++ str tsn)%string, weight) (new_synonyms itis).
Proof.
  intros Hname.
  assert (Hrow : exists refs, In (tsn, name, refs) (synonym_query itis)).
  { assert (Hlisted : forall names links,
              In (tsn, name) names ->
              exists refs, In (tsn, name, refs) (names_with_refs names links)).
    { intros names links Hin.
      destruct (dedup_represents name_eqb (fun n => n) names (tsn, name) name_eqb_eq Hin)
        as (y & Hy & ->).
      eexists. unfold names_with_refs. apply in_map_iff.
      exists (tsn, name). split; [reflexivity | exact Hy]. }
    assert (Hunion : exists refs,
              In (tsn, name, refs)
                 (names_with_refs (longnames itis) (reference_links itis)
                  ++ names_with_refs (vernaculars itis) (vern_ref_links itis))).
    { destruct Hname as [H|H];
        [destruct (Hlisted _ (reference_links itis) H) as [refs Hr]
        |destruct (Hlisted _ (vern_ref_links itis) H) as [refs Hr]];
        exists refs; apply in_app_iff; auto. }
    destruct Hunion as [refs Hr]. exists refs. unfold synonym_query.
    destruct (dedup_represents row_eqb (fun r => r) _ _ row_eqb_eq Hr) as (y & Hy & ->).
    exact Hy. }
  destruct Hrow as [refs Hrow].
  assert (Htuple : In (synonym_tuple (tsn, name, refs))
                      (map synonym_tuple (synonym_query itis)))
    by now apply in_map.
  destruct (dedup_represents key_eqb fst _ _ key_eqb_eq Htuple) as (r & Hr & Hkey).
  eexists. unfold new_synonyms, grouped_max. apply in_map_iff.
  exists r. split; [|exact Hr]. cbn in Hkey. rewrite Hkey. reflexivity.
Qed.

Lemma names_with_refs_names names links tsn name refs :
  In (tsn, name, refs) (names_with_refs names links) -> In (tsn, name) names.
Proof.
  unfold names_with_refs. intros Hin.
  apply in_map_iff in Hin as (n & [= <- _] & Hn). now apply dedup_incl in Hn.
Qed.

Lemma synonym_is_name itis row :
  In row (new_synonyms itis) ->
  exists tsn,
    snd (fst row) = ("tsn:" ++ str tsn)%string
    /\ (In (tsn, fst (fst row)) (longnames itis)
        \/ In (tsn, fst (fst row)) (vernaculars itis)).
Proof.
  unfold new_synonyms, grouped_max. intros Hrow.
  apply in_map_iff in Hrow as (r & <- & Hr). cbn [fst].
  apply dedup_incl in Hr. apply in_map_iff in Hr as ([[tsn name] refs] & <- & Hq).
  unfold synonym_query in Hq. apply dedup_incl in Hq.
  exists tsn. cbn. split; [reflexivity|].
  apply in_app_iff in Hq as [Hq|Hq]; apply names_with_refs_names in Hq; auto.
Qed.

Lemma fold_max_attained w ws :
  fold_right Z.max w ws = w \/ In (fold_right Z.max w ws) ws.
Proof.
  induction ws as [|x ws IH]; cbn; [now left|].
  destruct (Z.max_spec x (fold_right Z.max w ws)) as [[_ ->]|[_ ->]]; [|auto].
  destruct IH as [->|IH]; auto.
Qed.

Lemma fold_max_upper w ws x : In x ws -> (x <= fold_right Z.max w ws)%Z.
Proof.
  induction ws as [|y ws IH]; cbn; [tauto|].
  intros [->|Hx]; [lia|]. specialize (IH Hx). lia.
Qed.

Lemma synonym_tuple_spec tsn name refs :
  synonym_tuple (tsn, name, refs) = (name, ("tsn:" ++ str tsn)%string, Z.min 3 refs).
Proof.
  cbn. destruct (Z.leb_spec 3 refs); f_equal; lia.
Qed.

(** A row added to [synonyms] carries the greatest weight among the rows
    of the query with its name and taxonomic serial number. *)
Lemma synonym_weight itis synonym entity weight :
  In (synonym, entity, weight) (new_synonyms itis) ->
  (exists tsn refs,
      entity = ("tsn:" ++ str tsn)%string
      /\ In (tsn, synonym, refs) (synonym_query itis)
      /\ weight = Z.min 3 refs)
  /\ forall tsn refs,
      entity = ("tsn:" ++ str tsn)%string ->
      In (tsn, synonym, refs) (synonym_query itis) ->
      (Z.min 3 refs <= weight)%Z.
Proof.
  unfold new_synonyms, grouped_max. intros Hrow.
  apply in_map_iff in Hrow as (r & Hr & Hin).
  apply dedup_incl in Hin. injection Hr as Hkey Hweight.
  split.
  - assert (Hrep : exists r0, In r0 (map synonym_tuple (synonym_query itis))
                              /\ fst r0 = fst r /\ snd r0 = weight).
    { destruct (fold_max_attained (snd r)
                  (map snd (List.filter (key_eqb r)
                                        (map synonym_tuple (synonym_query itis)))))
        as [Hw|Hw]; rewrite Hweight in Hw.
      - exists r. auto.
      - apply in_map_iff in Hw as (r0 & Hsnd & Hr0).
        apply filter_In in Hr0 as [Hr0 Heq]. apply key_eqb_eq in Heq.
        exists r0. auto. }
    destruct Hrep as (r0 & Hr0 & Hfst & Hsnd).
    apply in_map_iff in Hr0 as ([[tsn name] refs] & Htuple & Hq).
    rewrite synonym_tuple_spec in Htuple. subst r0.
    cbn [fst snd] in Hfst, Hsnd. rewrite Hkey in Hfst. injection Hfst as Hname Hentity. subst name entity.
    exists tsn, refs. auto.
  - intros tsn refs -> Hq. rewrite <- Hweight.
    apply fold_max_upper. apply in_map_iff.
    exists (synonym_tuple (tsn, synonym, refs)).
    rewrite synonym_tuple_spec. split; [reflexivity|].
    apply filter_In. split.
    + rewrite <- synonym_tuple_spec. now apply in_map.
    + apply key_eqb_eq. exact Hkey.
Qed.

(** X13. When the import goes through, the synonyms table is what was
    there before, without the rows [drop_previous] deletes when it is set,
    followed by the added rows.  The added rows stand for the names of the
    ITIS query: there is one for every name of [longnames] and of
    [vernaculars] under the identifier of its taxonomic serial number, and
    none besides; each carries the greatest weight, from 0 to 3, that the
    query gives for its name and number; no two share synonym and
    entity. *)
Theorem added_synonyms (drop_previous : bool) outside c :
  drop_previous = true \/ select_itis_version (working c) = None ->
  synonyms (committed (connection (import_species drop_previous outside c)))
  = (if drop_previous
     then List.filter
            (fun s => negb (str_in (snd (fst s))
                              (map entity_id (List.filter is_itis (entities (working c))))))
            (synonyms (working c))
     else synonyms (working c))
    ++ new_synonyms (fst (source_of outside))
  /\ (forall synonym entity,
        In (synonym, entity) (map fst (new_synonyms (fst (source_of outside)))) <->
        exists tsn,
          entity = ("tsn:" ++ str tsn)%string
          /\ (In (tsn, synonym) (longnames (fst (source_of outside)))
              \/ In (tsn, synonym) (vernaculars (fst (source_of outside)))))
  /\ (forall synonym entity weight,
        In (synonym, entity, weight) (new_synonyms (fst (source_of outside))) ->
        (0 <= weight <= 3)%Z
        /\ (exists tsn refs,
              entity = ("tsn:" ++ str tsn)%string
              /\ In (tsn, synonym, refs) (synonym_query (fst (source_of outside)))
              /\ weight = Z.min 3 refs)
        /\ forall tsn refs,
            entity = ("tsn:" ++ str tsn)%string ->
            In (tsn, synonym, refs) (synonym_query (fst (source_of outside))) ->
            (Z.min 3 refs <= weight)%Z)
  /\ List.NoDup (map fst (new_synonyms (fst (source_of outside)))).
Proof.
  intros Hruns.
  assert (Hnone : select_itis_version
                    (if drop_previous then remove_previous (working c) else working c)
                  = None).
  { destruct drop_previous; [apply no_version_after_removal|].
    destruct Hruns as [H|H]; [discriminate | exact H]. }
  rewrite (import_species_runs _ _ _ Hnone). cbn [committed imported synonyms].
  split; [destruct drop_previous; reflexivity|]. split; [|split].
  - intros synonym entity. split.
    + intros Hin. apply in_map_iff in Hin as (row & Hkey & Hrow).
      destruct (synonym_is_name _ _ Hrow) as (tsn & Hentity & Hname).
      rewrite Hkey in Hentity, Hname. cbn [fst snd] in Hentity, Hname. eauto.
    + intros (tsn & -> & Hname).
      destruct (name_is_synonym _ tsn synonym Hname) as [weight Hw].
      apply in_map_iff. exists (synonym, ("tsn:" ++ str tsn)%string, weight). auto.
  - intros synonym entity weight Hrow. split; [|now apply synonym_weight].
    unfold new_synonyms, grouped_max in Hrow.
    apply in_map_iff in Hrow as (r & Heq & Hr). injection Heq as _ <-.
    apply dedup_incl in Hr. apply fold_max_bounds.
    + now apply synonym_tuple_weight in Hr.
    + apply List.Forall_forall. intros w Hw.
      apply in_map_iff in Hw as (r' & <- & Hr').
      apply filter_In in Hr' as [Hr' _]. now apply synonym_tuple_weight in Hr'.
  - unfold new_synonyms, grouped_max. rewrite map_map. cbn [fst].
    apply (dedup_keys_distinct key_eqb fst), key_eqb_eq.
Qed.

(** Without [drop_previous] the row of the disease is kept and the two
    names of the ITIS database follow it; with [drop_previous] the former
    ITIS row is deleted first. *)
Lemma added_synonyms_witness :
  synonyms (committed (connection (import_species false example_outside
                                     (connect disease_tables))))
  = [ ("disease", "http://purl.obolibrary.org/obo/DOID_4", 3%Z);
      ("Homo sapiens", "tsn:180092", 1%Z);
      ("human", "tsn:180092", 0%Z) ]
  /\ synonyms (committed (connection (import_species true example_outside
                                        example_connection)))
     = [ ("Homo sapiens", "tsn:180092", 1%Z); ("human", "tsn:180092", 0%Z) ].
Proof.
  split.
  - destruct (added_synonyms false example_outside (connect disease_tables)) as [H _].
    + right. reflexivity.
    + rewrite H. reflexivity.
  - destruct (added_synonyms true example_outside example_connection) as [H _].
    + left. reflexivity.
    + rewrite H. reflexivity.
Defined.

(** *** Entity identifiers *)

Lemma str_injective a b : str a = str b -> a = b.
Proof.
  unfold str. intros H.
  assert (Hnn : forall z, Z.to_int z <> Decimal.Pos Decimal.Nil
                          /\ Z.to_int z <> Decimal.Neg Decimal.Nil).
  { intros [|p|p]; cbn; split; try discriminate;
      intros [= Hp]; now apply DecimalPos.Unsigned.to_uint_nonnil in Hp. }
  apply DecimalZ.to_int_inj.
  apply (f_equal NilZero.int_of_string) in H.
  rewrite !NilZero.isi in H by apply Hnn. now injection H.
Qed.

(** X14. The identifier ['tsn:' + str(tsn)] determines the taxonomic
    serial number: different numbers get different identifiers. *)
Theorem entity_id_injective a b :
  ("tsn:" ++ str a)%string = ("tsn:" ++ str b)%string -> a = b.
Proof. intros [= H]. now apply str_injective. Qed.

Lemma entity_id_injective_witness :
  ("tsn:" ++ str 180092)%string = ("tsn:" ++ str (180000 + 92))%string
  /\ 180092%Z = (180000 + 92)%Z.
Proof.
  split; [reflexivity|].
  apply (entity_id_injective 180092 (180000 + 92)). reflexivity.
Defined.

End ImportFacts.
